(** * teensycore: the reset routine and boot tables of [teensy.c]

    A shallow embedding of [src/teensy.c] (NXP i.MX RT1060, Cortex-M7):
    the two memory initialisation primitives [memory_copy] and
    [memory_clear], the [startup] routine and the static boot tables.

    Conventions.
    - [uint32_t] is [long unsigned int], 32 bits wide on this target: a
      word is a [Z] in [[0, 2^32)], arithmetic wraps modulo [2^32].
    - A pointer is a 32-bit byte address.  A value of type [uint32_t *]
      is moreover 4-byte aligned ([wf_ptr]); [p++] adds 4.
    - Memory is byte addressed and little endian; [mmio32(x)] and
      [*p] for [p : uint32_t *] are 4-byte accesses. *)

From Stdlib Require Import ZArith List Lia Bool.
Import ListNotations.
Local Open Scope Z_scope.

(** ** 32-bit words and pointers *)

Definition modulus : Z := 4294967296.

Definition wrap (z : Z) : Z := z mod modulus.

(** [p++] on a [uint32_t *]: the address advances by [sizeof(uint32_t)]. *)
Definition ptr_inc (p : Z) : Z := wrap (p + 4).

(** The values of type [uint32_t *]: 32-bit, word aligned addresses. *)
Definition wf_ptr (p : Z) : Prop := 0 <= p < modulus /\ p mod 4 = 0.

Definition wf_ptrb (p : Z) : bool :=
  (0 <=? p) && (p <? modulus) && (p mod 4 =? 0).

(** ** Byte-addressed memory *)

(** A memory maps a byte address to the content of that byte cell; only
    the low eight bits of a cell are ever observed. *)
Definition mem : Type := Z -> Z.

Definition get_byte (m : mem) (a : Z) : Z := m (wrap a) mod 256.

(** Little-endian 32-bit read at byte address [a]. *)
Definition load32 (m : mem) (a : Z) : Z :=
  get_byte m a
  + 256 * get_byte m (a + 1)
  + 65536 * get_byte m (a + 2)
  + 16777216 * get_byte m (a + 3).

(** Little-endian 32-bit write of [v] at byte address [a]. *)
Definition store32 (m : mem) (a v : Z) : mem :=
  fun x =>
    if x =? wrap a then v mod 256
    else if x =? wrap (a + 1) then (v / 256) mod 256
    else if x =? wrap (a + 2) then (v / 65536) mod 256
    else if x =? wrap (a + 3) then (v / 16777216) mod 256
    else m x.

(** ** The memory initialisation primitives *)

(** The loop of [memory_copy]:
    [while (dest < dest_end) { *dest++ = *src++; }].
    [fuel] bounds the number of iterations; [None] means the bound was
    reached with the guard still true. *)
Fixpoint copy_loop (fuel : nat) (m : mem) (dest src dest_end : Z) : option mem :=
  if dest <? dest_end then
    match fuel with
    | O => None
    | S fuel' =>
        copy_loop fuel' (store32 m dest (load32 m src))
                  (ptr_inc dest) (ptr_inc src) dest_end
    end
  else Some m.

(** [static void memory_copy(uint32_t *dest, const uint32_t *src, uint32_t *dest_end)] *)
Definition memory_copy (fuel : nat) (m : mem) (dest src dest_end : Z) : option mem :=
  if dest =? src then Some m
  else copy_loop fuel m dest src dest_end.

(** The loop of [memory_clear]: [while (dest < dest_end) { *dest++ = 0; }]. *)
Fixpoint clear_loop (fuel : nat) (m : mem) (dest dest_end : Z) : option mem :=
  if dest <? dest_end then
    match fuel with
    | O => None
    | S fuel' => clear_loop fuel' (store32 m dest 0) (ptr_inc dest) dest_end
    end
  else Some m.

(** [static void memory_clear(uint32_t *dest, uint32_t *dest_end)] *)
Definition memory_clear (fuel : nat) (m : mem) (dest dest_end : Z) : option mem :=
  clear_loop fuel m dest dest_end.

(** A fuelled computation [f] terminates with result [r]: some bound is
    enough, and every larger bound gives the same result. *)
Definition runs_to {A : Type} (f : nat -> option A) (r : A) : Prop :=
  exists n : nat, forall k : nat, (n <= k)%nat -> f k = Some r.

(** Number of loop iterations for well-formed [dest], [dest_end]. *)
Definition iterations (dest dest_end : Z) : nat :=
  Z.to_nat ((dest_end - dest) / 4).

(** ** Linker symbols

    [teensy.c] declares its memory map as [extern unsigned long] objects
    whose addresses the linker script supplies, and takes the addresses
    of its own objects and functions.  The record holds these addresses;
    a field [_x] is the value of [(uint32_t)&_x]. *)
Record symbols : Type := mkSymbols {
  _stextload : Z;
  _stext : Z;
  _etext : Z;
  _sdataload : Z;
  _sdata : Z;
  _edata : Z;
  _sbss : Z;
  _ebss : Z;
  _heap_end : Z;
  _heap_start : Z;
  _flexram_bank_config : Z;
  _estack : Z;
  _flashimagelen : Z;
  irq_table : Z;              (* [(uint32_t)&irq_table] *)
  main_addr : Z;              (* the target of [bl main] *)
  startup_addr : Z;           (* [(uint32_t)startup] *)
  BootData_addr : Z;          (* [(uint32_t)BootData] *)
  ImageVectorTable_addr : Z;  (* [(uint32_t)ImageVectorTable] *)
  bl_return : Z               (* address of the instruction after [bl main] *)
}.

(** ** The static boot tables *)

(** [uint32_t irq_table[256 + 16]] *)
Definition irq_table_len : Z := 256 + 16.

(** [const uint32_t BootData[3]] *)
Definition BootData (L : symbols) : list Z :=
  [ 0x60000000;
    _flashimagelen L;
    0 ].

(** [const uint32_t ImageVectorTable[8]] *)
Definition ImageVectorTable (L : symbols) : list Z :=
  [ 0x402000D1;                (* header *)
    startup_addr L;            (* entrypoint *)
    0;                         (* reserved *)
    0;                         (* dcd *)
    BootData_addr L;           (* abs address of boot data *)
    ImageVectorTable_addr L;   (* self *)
    0;                         (* command sequence file *)
    0 ].                       (* reserved *)

(** [uint32_t FlexSPI_NOR_Config[128]], four words per line as in the
    source; the first line is byte offset 0x00, the line starting with
    [256] is byte offset 0x1C0. *)
Definition FlexSPI_NOR_Config : list Z :=
  [ 0x42464346; 0x56010000; 0; 0x00020101;
    0x00000000; 0; 0; 0x00000000;
    0; 0; 0; 0;
    0; 0; 0; 0;
    0x00000000; 0x00030401; 0; 0;
    0x00200000; 0; 0; 0;
    0; 0; 0; 0;
    0; 0; 0; 0x00000000;
    0x0A1804EB; 0x26043206; 0; 0;
    0x24040405; 0; 0; 0;
    0; 0; 0; 0;
    0x00000406; 0; 0; 0;
    0; 0; 0; 0;
    0x08180420; 0; 0; 0;
    0; 0; 0; 0;
    0; 0; 0; 0;
    0x081804D8; 0; 0; 0;
    0x08180402; 0x00002004; 0; 0;
    0; 0; 0; 0;
    0x00000460; 0; 0; 0;
    0; 0; 0; 0;
    0; 0; 0; 0;
    0; 0; 0; 0;
    0; 0; 0; 0;
    0; 0; 0; 0;
    0; 0; 0; 0;
    0; 0; 0; 0;
    0; 0; 0; 0;
    256; 4096; 1; 0;
    0x00010000; 0; 0; 0;
    0; 0; 0; 0;
    0; 0; 0; 0 ].

(** [sizeof] of a [uint32_t] array, in bytes. *)
Definition sizeof_table (t : list Z) : Z := 4 * Z.of_nat (length t).

(** The word of a [uint32_t] array at byte offset [off]. *)
Definition word_at_offset (t : list Z) (off : Z) : option Z :=
  if (0 <=? off) && (off mod 4 =? 0) then nth_error t (Z.to_nat (off / 4))
  else None.

(** ** Machine state and the startup monad *)

Inductive callee : Type := Fmemory_copy | Fmemory_clear.

(** The side effects of [startup], as they are observed in order. *)
Inductive event : Type :=
| EvMmioRead (addr val : Z)        (* [... = mmio32(addr)] *)
| EvMmioWrite (addr val : Z)       (* [mmio32(addr) = val] *)
| EvIsb                            (* [isb] *)
| EvDsb                            (* [dsb] *)
| EvMovSp (val : Z)                (* [mov sp, val] *)
| EvCall (f : callee) (args : list Z)
| EvReturn (f : callee)
| EvStore (addr val : Z)           (* a plain word store *)
| EvBl (target : Z).               (* [bl target] *)

Record machine : Type := mkMachine {
  m_mem : mem;
  m_sp : Z;               (* stack pointer *)
  m_lr : Z;               (* link register *)
  m_pc : Z;               (* where control is *)
  m_trace : list event    (* side effects so far, oldest first *)
}.

Definition M (A : Type) : Type := machine -> option (A * machine).

Definition ret {A : Type} (a : A) : M A := fun s => Some (a, s).

Definition bind {A B : Type} (c : M A) (k : A -> M B) : M B :=
  fun s => match c s with
           | Some (a, s') => k a s'
           | None => None
           end.

Notation "x <- c ;; k" := (bind c (fun x => k))
  (at level 61, c at next level, right associativity).
Notation "c ;; k" := (bind c (fun _ => k))
  (at level 61, right associativity).

Definition log (e : list event) (s : machine) : machine :=
  mkMachine (m_mem s) (m_sp s) (m_lr s) (m_pc s) (m_trace s ++ e).

Definition with_mem (m : mem) (s : machine) : machine :=
  mkMachine m (m_sp s) (m_lr s) (m_pc s) (m_trace s).

(** [mmio32(a)] as a value: a volatile [unsigned long] read at address [a]. *)
Definition mmio32_read (a : Z) : M Z :=
  fun s => let v := load32 (m_mem s) a in
           Some (v, log [EvMmioRead a v] s).

(** [mmio32(a) = v]. *)
Definition mmio32_write (a v : Z) : M unit :=
  fun s => Some (tt, log [EvMmioWrite a v] (with_mem (store32 (m_mem s) a v) s)).

(** [*p = v] for an ordinary [uint32_t] object. *)
Definition store_word (a v : Z) : M unit :=
  fun s => Some (tt, log [EvStore a v] (with_mem (store32 (m_mem s) a v) s)).

Definition asm_isb : M unit := fun s => Some (tt, log [EvIsb] s).

Definition asm_dsb : M unit := fun s => Some (tt, log [EvDsb] s).

(** [mov sp, v] *)
Definition asm_mov_sp (v : Z) : M unit :=
  fun s => Some (tt, log [EvMovSp v]
                         (mkMachine (m_mem s) v (m_lr s) (m_pc s) (m_trace s))).

(** [bl target] (branch with link, Thumb): the link register receives
    the address of the next instruction with bit 0 set, control goes to
    [target]; the stack and the memory are not touched. *)
Definition asm_bl (target next : Z) : M unit :=
  fun s => Some (tt, log [EvBl target]
                         (mkMachine (m_mem s) (m_sp s) (Z.lor next 1) target (m_trace s))).

(** A call of a primitive from [startup]; the call returns before the
    next statement runs. *)
Definition call_memory_copy (fuel : nat) (dest src dest_end : Z) : M unit :=
  fun s => match memory_copy fuel (m_mem s) dest src dest_end with
           | Some m' =>
               Some (tt, log [EvCall Fmemory_copy [dest; src; dest_end];
                              EvReturn Fmemory_copy] (with_mem m' s))
           | None => None
           end.

Definition call_memory_clear (fuel : nat) (dest dest_end : Z) : M unit :=
  fun s => match memory_clear fuel (m_mem s) dest dest_end with
           | Some m' =>
               Some (tt, log [EvCall Fmemory_clear [dest; dest_end];
                              EvReturn Fmemory_clear] (with_mem m' s))
           | None => None
           end.

(** Everything [startup] does before its last instruction. *)
Definition startup_init (fuel : nat) (L : symbols) : M unit :=
  (* FlexRAM Bank configuration *)
  mmio32_write (0x400AC000 + 0x44) (_flexram_bank_config L) ;;
  mmio32_write (0x400AC000 + 0x40) 0x00000007 ;;
  mmio32_write (0x400AC000 + 0x38) 0x00AA0000 ;;
  (* Enable FPU *)
  cpacr <- mmio32_read 0xE000ED88 ;;
  mmio32_write 0xE000ED88 (Z.lor cpacr (Z.shiftl 0xFF 20)) ;;
  asm_isb ;;
  asm_dsb ;;
  (* Move stack pointer *)
  asm_mov_sp (_estack L) ;;
  (* Initialize memory *)
  call_memory_copy fuel (_stext L) (_stextload L) (_etext L) ;;
  call_memory_copy fuel (_sdata L) (_sdataload L) (_edata L) ;;
  call_memory_clear fuel (_sbss L) (_ebss L) ;;
  (* Assign stack pointer *)
  store_word (irq_table L + 4 * 0) (_estack L) ;;
  (* Setup the NVIC *)
  let addr := irq_table L in
  mmio32_write 0xE000ED08 addr.

(** [void startup()], a [naked] function: the body is all there is, no
    prologue and no epilogue follow [bl main]. *)
Definition startup (fuel : nat) (L : symbols) : M unit :=
  startup_init fuel L ;;
  (* Branch to main *)
  asm_bl (main_addr L) (bl_return L).

(** The forward copy reads word [i] of the source after it has written
    words [0 .. i-1] of the destination: the source word must not be one
    of those. *)
Definition source_intact (n : nat) (dest src : Z) : Prop :=
  forall i j, 0 <= j < i -> i < Z.of_nat n -> wrap (src + 4 * i) <> dest + 4 * j.

(** ** Simulated memories *)

Definition zero_mem : mem := fun _ => 0.

(** The memory [m] with the words [ws] placed from address [a] on. *)
Fixpoint store_words (m : mem) (a : Z) (ws : list Z) : mem :=
  match ws with
  | [] => m
  | w :: ws' => store_words (store32 m a w) (a + 4) ws'
  end.

(** Three distinct words at addresses 0, 4 and 8. *)
Definition overlap_mem : mem := store_words zero_mem 0 [1; 2; 3].

(** ** Memory layouts

    The half-open byte ranges [[a1, e1)] and [[a2, e2)] do not meet. *)
Definition disjoint (a1 e1 a2 e2 : Z) : Prop := e1 <= a2 \/ e2 <= a1.

(** The word at address [r] lies outside the range [[a, e)]. *)
Definition outside (r a e : Z) : Prop := r + 4 <= a \/ e <= r.

(** End of the storage image that is copied to [[s, e)] from [load]. *)
Definition load_end (load s e : Z) : Z := load + (e - s).

(** A memory map as a linker script lays it out: the symbols are word
    aligned, the storage images lie apart from the regions the program
    runs from, these regions lie apart from each other, and neither the
    device registers that [startup] writes nor the vector table overlap
    what they must not clobber. *)
Record wf_layout (L : symbols) : Prop := mkWfLayout {
  wf_stext : wf_ptr (_stext L);
  wf_etext : wf_ptr (_etext L);
  wf_stextload : wf_ptr (_stextload L);
  wf_sdata : wf_ptr (_sdata L);
  wf_edata : wf_ptr (_edata L);
  wf_sdataload : wf_ptr (_sdataload L);
  wf_sbss : wf_ptr (_sbss L);
  wf_ebss : wf_ptr (_ebss L);
  wf_irq_table : wf_ptr (irq_table L);
  text_ordered : _stext L <= _etext L;
  data_ordered : _sdata L <= _edata L;
  bss_ordered : _sbss L <= _ebss L;
  textload_fits : load_end (_stextload L) (_stext L) (_etext L) <= modulus;
  dataload_fits : load_end (_sdataload L) (_sdata L) (_edata L) <= modulus;
  (* storage images apart from the execution addresses *)
  textload_text : disjoint (_stextload L) (load_end (_stextload L) (_stext L) (_etext L))
                           (_stext L) (_etext L);
  dataload_data : disjoint (_sdataload L) (load_end (_sdataload L) (_sdata L) (_edata L))
                           (_sdata L) (_edata L);
  dataload_text : disjoint (_sdataload L) (load_end (_sdataload L) (_sdata L) (_edata L))
                           (_stext L) (_etext L);
  (* the execution regions apart from each other *)
  text_data : disjoint (_stext L) (_etext L) (_sdata L) (_edata L);
  text_bss : disjoint (_stext L) (_etext L) (_sbss L) (_ebss L);
  data_bss : disjoint (_sdata L) (_edata L) (_sbss L) (_ebss L);
  (* the registers written before the copies are not part of an image *)
  regs_textload : forall r, In r [0x400AC044; 0x400AC040; 0x400AC038; 0xE000ED88] ->
      outside r (_stextload L) (load_end (_stextload L) (_stext L) (_etext L));
  regs_dataload : forall r, In r [0x400AC044; 0x400AC040; 0x400AC038; 0xE000ED88] ->
      outside r (_sdataload L) (load_end (_sdataload L) (_sdata L) (_edata L));
  (* the words written after the copies are not part of a region *)
  late_text : forall r, In r [irq_table L; 0xE000ED08] -> outside r (_stext L) (_etext L);
  late_data : forall r, In r [irq_table L; 0xE000ED08] -> outside r (_sdata L) (_edata L);
  late_bss : forall r, In r [irq_table L; 0xE000ED08] -> outside r (_sbss L) (_ebss L)
}.

(** A small layout in the style of the board's memory map: flash at
    [0x60000000], instruction RAM at [0], data RAM at [0x20000000]. *)
Definition demo_layout : symbols :=
  {| _stextload := 0x60002000; _stext := 0x00000020; _etext := 0x00000028;
     _sdataload := 0x60002008; _sdata := 0x20000000; _edata := 0x20000008;
     _sbss := 0x20000008; _ebss := 0x20000010;
     _heap_end := 0x20280000; _heap_start := 0x20200000;
     _flexram_bank_config := 0xAAAAAABF;
     _estack := 0x20010000;
     _flashimagelen := 0x00003000;
     irq_table := 0x20001000;
     main_addr := 0x00000021;
     startup_addr := 0x60001401;
     BootData_addr := 0x60001020;
     ImageVectorTable_addr := 0x60001000;
     bl_return := 0x60001460 |}.

(** A machine at reset for [demo_layout]: the storage images of two code
    words and two data words in flash, stale words in the bss region. *)
Definition demo_machine : machine :=
  {| m_mem := store_words
                (store_words zero_mem 0x60002000
                   [0x11111111; 0x22222222; 0x33333333; 0x44444444])
                0x20000008 [0xDEADBEEF; 0xCAFEBABE];
     m_sp := 0x20201000;
     m_lr := 0xFFFFFFFF;
     m_pc := 0x60001400;
     m_trace := [] |}.

(** ** What [startup] writes

    The byte [x] belongs to the word at address [r]. *)
Definition in_word (r x : Z) : Prop := r <= x < r + 4.

(** The bytes [startup] may write: the code and data regions when their
    load address differs from their execution address (otherwise
    [memory_copy] returns at once), the bss region, the five device
    registers and [irq_table[0]]. *)
Definition startup_footprint (L : symbols) (x : Z) : Prop :=
  (_stext L <> _stextload L /\ _stext L <= x < _etext L)
  \/ (_sdata L <> _sdataload L /\ _sdata L <= x < _edata L)
  \/ _sbss L <= x < _ebss L
  \/ in_word 0x400AC044 x
  \/ in_word 0x400AC040 x
  \/ in_word 0x400AC038 x
  \/ in_word 0xE000ED88 x
  \/ in_word (irq_table L) x
  \/ in_word 0xE000ED08 x.

(** ** Basic facts on words and memory *)

Lemma wrap_small (z : Z) : 0 <= z < modulus -> wrap z = z.
Proof. intros H. unfold wrap. apply Z.mod_small. exact H. Qed.

Lemma wrap_range (z : Z) : 0 <= wrap z < modulus.
Proof. unfold wrap, modulus. apply Z.mod_pos_bound. lia. Qed.

Lemma wf_ptrb_spec (p : Z) : wf_ptrb p = true <-> wf_ptr p.
Proof.
  unfold wf_ptrb, wf_ptr.
  rewrite !andb_true_iff, Z.leb_le, Z.ltb_lt, Z.eqb_eq. tauto.
Qed.

(** Closed side conditions on the demo layout. *)
Ltac demo_wf_ptr := apply wf_ptrb_spec; reflexivity.

Ltac demo_outside :=
  let r := fresh "r" in
  let Hr := fresh "Hr" in
  intros r Hr; unfold outside, load_end; cbn in Hr |- *;
  repeat (destruct Hr as [Hr|Hr]; [subst r; lia|]); contradiction.


Lemma wf_ptr_offset (p k : Z) :
  wf_ptr p -> 0 <= k < 4 -> wrap (p + k) = p + k.
Proof.
  intros [Hr Ha] Hk. apply wrap_small.
  unfold modulus in *.
  assert (p = 4 * (p / 4)) by (apply Z.div_exact; lia).
  lia.
Qed.

Lemma wf_ptr_step (p e : Z) :
  wf_ptr p -> wf_ptr e -> p < e -> ptr_inc p = p + 4 /\ wf_ptr (p + 4) /\ p + 4 <= e.
Proof.
  intros [Hp Hpa] [He Hea] Hlt. unfold ptr_inc, wf_ptr, modulus in *.
  assert (p = 4 * (p / 4)) by (apply Z.div_exact; lia).
  assert (e = 4 * (e / 4)) by (apply Z.div_exact; lia).
  assert (Hle : p + 4 <= e) by lia.
  repeat split; try lia.
  - apply wrap_small. unfold modulus. lia.
  - replace (p + 4) with (p + 1 * 4) by lia. rewrite Z.mod_add; lia.
Qed.

Lemma wf_ptr_wrap_add (p k : Z) : wf_ptr p -> wf_ptr (wrap (p + 4 * k)).
Proof.
  intros [Hp Hpa]. split; [apply wrap_range|].
  unfold wrap, modulus. Z.to_euclidean_division_equations. lia.
Qed.

Lemma load32_range (m : mem) (a : Z) : 0 <= load32 m a < modulus.
Proof.
  unfold load32, get_byte, modulus.
  pose proof (Z.mod_pos_bound (m (wrap a)) 256).
  pose proof (Z.mod_pos_bound (m (wrap (a + 1))) 256).
  pose proof (Z.mod_pos_bound (m (wrap (a + 2))) 256).
  pose proof (Z.mod_pos_bound (m (wrap (a + 3))) 256).
  lia.
Qed.

Lemma bytes_recompose (v : Z) :
  v mod 256 + 256 * ((v / 256) mod 256) + 65536 * ((v / 65536) mod 256)
  + 16777216 * ((v / 16777216) mod 256) = v mod modulus.
Proof.
  unfold modulus.
  replace (v / 65536) with (v / 256 / 256) by (rewrite Z.div_div by lia; reflexivity).
  replace (v / 16777216) with (v / 256 / 256 / 256)
    by (rewrite !Z.div_div by lia; reflexivity).
  replace 4294967296 with (256 * (256 * (256 * 256))) by reflexivity.
  rewrite !Z.rem_mul_r by lia.
  lia.
Qed.

Lemma wrap_wrap_add (a b : Z) : wrap (wrap a + b) = wrap (a + b).
Proof. unfold wrap. apply Zplus_mod_idemp_l. Qed.

(** A word store touches the four bytes of its word only. *)
Lemma store32_frame (m : mem) (a v x : Z) :
  wf_ptr a -> ~ (a <= x < a + 4) -> store32 m a v x = m x.
Proof.
  intros Ha Hx. unfold store32.
  replace (wrap a) with (wrap (a + 0)) by (f_equal; lia).
  rewrite !(wf_ptr_offset a) by (auto; lia).
  repeat match goal with
         | |- context [x =? ?y] => destruct (Z.eqb_spec x y); [lia|]
         end.
  reflexivity.
Qed.

Lemma load32_ext (m1 m2 : mem) (a : Z) :
  wf_ptr a -> (forall x, a <= x < a + 4 -> m1 x = m2 x) ->
  load32 m1 a = load32 m2 a.
Proof.
  intros Ha H. unfold load32, get_byte.
  replace (wrap a) with (wrap (a + 0)) by (f_equal; lia).
  rewrite !(wf_ptr_offset a) by (auto; lia).
  rewrite !H by lia. reflexivity.
Qed.

Lemma load32_store32_same (m : mem) (a v : Z) :
  wf_ptr a -> load32 (store32 m a v) a = wrap v.
Proof.
  intros Ha. unfold load32, get_byte, store32.
  replace (wrap a) with (wrap (a + 0)) by (f_equal; lia).
  rewrite !(wf_ptr_offset a) by (auto; lia).
  repeat match goal with
         | |- context [?x =? ?y] =>
             destruct (Z.eqb_spec x y); [try lia|try lia]
         end.
  rewrite !Z.mod_mod by lia.
  apply bytes_recompose.
Qed.

Lemma wf_ptr_apart (a b : Z) :
  wf_ptr a -> wf_ptr b -> a <> b -> a + 4 <= b \/ b + 4 <= a.
Proof.
  intros [_ Ha] [_ Hb] Hne.
  assert (a = 4 * (a / 4)) by (apply Z.div_exact; lia).
  assert (b = 4 * (b / 4)) by (apply Z.div_exact; lia).
  lia.
Qed.

Lemma load32_store32_other (m : mem) (a b v : Z) :
  wf_ptr a -> wf_ptr b -> a <> b -> load32 (store32 m a v) b = load32 m b.
Proof.
  intros Ha Hb Hne. apply load32_ext; [exact Hb|].
  intros x Hx. apply store32_frame; [exact Ha|].
  destruct (wf_ptr_apart a b Ha Hb Hne); lia.
Qed.

Lemma iterations_exact (dest dest_end : Z) :
  wf_ptr dest -> wf_ptr dest_end -> dest <= dest_end ->
  dest_end = dest + 4 * Z.of_nat (iterations dest dest_end).
Proof.
  intros [_ Hd] [_ He] Hle. unfold iterations.
  assert (dest = 4 * (dest / 4)) by (apply Z.div_exact; lia).
  assert (dest_end = 4 * (dest_end / 4)) by (apply Z.div_exact; lia).
  rewrite Z2Nat.id by (apply Z.div_pos; lia).
  assert (E : (dest_end - dest) mod 4 = 0).
  { rewrite Zminus_mod, Hd, He. reflexivity. }
  apply Z.div_exact in E; lia.
Qed.

(** *** The loops on an empty or inverted range *)

Lemma copy_loop_empty (fuel : nat) (m : mem) (dest src dest_end : Z) :
  dest_end <= dest -> copy_loop fuel m dest src dest_end = Some m.
Proof.
  intros H. destruct fuel; simpl;
    destruct (Z.ltb_spec dest dest_end); try lia; reflexivity.
Qed.

Lemma clear_loop_empty (fuel : nat) (m : mem) (dest dest_end : Z) :
  dest_end <= dest -> clear_loop fuel m dest dest_end = Some m.
Proof.
  intros H. destruct fuel; simpl;
    destruct (Z.ltb_spec dest dest_end); try lia; reflexivity.
Qed.

(** The alignment in [wf_ptr] matters for termination: an end address
    such as [0xFFFFFFFF], which is no [uint32_t *] value, lies above
    every aligned address, so the guard stays true as [dest] wraps. *)
Remark clear_loop_misaligned_end (fuel : nat) :
  forall (m : mem) (dest : Z),
    wf_ptr dest -> clear_loop fuel m dest 0xFFFFFFFF = None.
Proof.
  induction fuel as [|fuel IH]; intros m dest Hd; simpl;
    assert (Hlt : dest < 0xFFFFFFFF)
      by (destruct Hd as [Hr Ha]; unfold modulus in Hr;
          assert (dest <> 0xFFFFFFFF) by (intros ->; discriminate Ha); lia);
    destruct (Z.ltb_spec dest 0xFFFFFFFF); try lia.
  - reflexivity.
  - apply IH. unfold ptr_inc. replace (dest + 4) with (dest + 4 * 1) by lia.
    apply wf_ptr_wrap_add, Hd.
Qed.

(** *** More fuel does not change a result *)

Lemma copy_loop_mono (k : nat) :
  forall (k' : nat) (m r : mem) (dest src dest_end : Z),
    (k <= k')%nat -> copy_loop k m dest src dest_end = Some r ->
    copy_loop k' m dest src dest_end = Some r.
Proof.
  induction k as [|k IH]; intros k' m r dest src dest_end Hk H.
  - simpl in H. destruct (Z.ltb_spec dest dest_end); [discriminate|].
    rewrite copy_loop_empty by lia. exact H.
  - destruct k' as [|k']; [lia|]. simpl in *.
    destruct (dest <? dest_end); [|exact H].
    apply IH; [lia|exact H].
Qed.

Lemma clear_loop_mono (k : nat) :
  forall (k' : nat) (m r : mem) (dest dest_end : Z),
    (k <= k')%nat -> clear_loop k m dest dest_end = Some r ->
    clear_loop k' m dest dest_end = Some r.
Proof.
  induction k as [|k IH]; intros k' m r dest dest_end Hk H.
  - simpl in H. destruct (Z.ltb_spec dest dest_end); [discriminate|].
    rewrite clear_loop_empty by lia. exact H.
  - destruct k' as [|k']; [lia|]. simpl in *.
    destruct (dest <? dest_end); [|exact H].
    apply IH; [lia|exact H].
Qed.

Lemma memory_copy_runs_from (k : nat) (m r : mem) (dest src dest_end : Z) :
  memory_copy k m dest src dest_end = Some r ->
  runs_to (fun k' => memory_copy k' m dest src dest_end) r.
Proof.
  intros H. exists k. intros k' Hk. unfold memory_copy in *.
  destruct (dest =? src); [exact H|].
  apply (copy_loop_mono k); assumption.
Qed.

Lemma memory_clear_runs_from (k : nat) (m r : mem) (dest dest_end : Z) :
  memory_clear k m dest dest_end = Some r ->
  runs_to (fun k' => memory_clear k' m dest dest_end) r.
Proof.
  intros H. exists k. intros k' Hk. unfold memory_clear in *.
  apply (clear_loop_mono k); assumption.
Qed.

(** *** The loops on [n] words *)

Lemma clear_loop_words (n : nat) :
  forall (m : mem) (dest dest_end : Z),
    wf_ptr dest -> wf_ptr dest_end -> dest_end = dest + 4 * Z.of_nat n ->
    exists m' : mem,
      (forall k, (n <= k)%nat -> clear_loop k m dest dest_end = Some m')
      /\ (forall x, ~ (dest <= x < dest_end) -> m' x = m x)
      /\ (forall i, 0 <= i < Z.of_nat n -> load32 m' (dest + 4 * i) = 0).
Proof.
  induction n as [|n IH]; intros m dest dest_end Hd He Hn.
  - exists m. split; [|split].
    + intros k _. apply clear_loop_empty. lia.
    + reflexivity.
    + intros i Hi. lia.
  - assert (Hlt : dest < dest_end) by lia.
    destruct (wf_ptr_step dest dest_end Hd He Hlt) as (Hinc & Hd' & Hle).
    destruct (IH (store32 m dest 0) (dest + 4) dest_end Hd' He ltac:(lia))
      as (m' & Hrun & Hframe & Hzero).
    exists m'. split; [|split].
    + intros [|k] Hk; [lia|]. simpl.
      destruct (Z.ltb_spec dest dest_end); [|lia].
      rewrite Hinc. apply Hrun. lia.
    + intros x Hx. rewrite Hframe by lia. apply store32_frame; [exact Hd|lia].
    + intros i Hi. destruct (Z.eq_dec i 0) as [->|Hi0].
      * replace (dest + 4 * 0) with dest by lia.
        rewrite (load32_ext m' (store32 m dest 0)); [apply load32_store32_same; exact Hd|exact Hd|].
        intros x Hx. apply Hframe. lia.
      * replace (dest + 4 * i) with (dest + 4 + 4 * (i - 1)) by lia.
        apply Hzero. lia.
Qed.

Lemma copy_loop_words (n : nat) :
  forall (m : mem) (dest src dest_end : Z),
    wf_ptr dest -> wf_ptr dest_end -> dest_end = dest + 4 * Z.of_nat n ->
    exists m' : mem,
      (forall k, (n <= k)%nat -> copy_loop k m dest src dest_end = Some m')
      /\ (forall x, ~ (dest <= x < dest_end) -> m' x = m x)
      /\ (wf_ptr src -> source_intact n dest src ->
          forall i, 0 <= i < Z.of_nat n ->
                    load32 m' (dest + 4 * i) = load32 m (wrap (src + 4 * i))).
Proof.
  induction n as [|n IH]; intros m dest src dest_end Hd He Hn.
  - exists m. split; [|split].
    + intros k _. apply copy_loop_empty. lia.
    + reflexivity.
    + intros _ _ i Hi. lia.
  - assert (Hlt : dest < dest_end) by lia.
    destruct (wf_ptr_step dest dest_end Hd He Hlt) as (Hinc & Hd' & Hle).
    destruct (IH (store32 m dest (load32 m src)) (dest + 4) (ptr_inc src) dest_end
                 Hd' He ltac:(lia))
      as (m' & Hrun & Hframe & Hcopy).
    exists m'. split; [|split].
    + intros [|k] Hk; [lia|]. simpl.
      destruct (Z.ltb_spec dest dest_end); [|lia].
      rewrite Hinc. apply Hrun. lia.
    + intros x Hx. rewrite Hframe by lia. apply store32_frame; [exact Hd|lia].
    + intros Hs Hintact i Hi. destruct (Z.eq_dec i 0) as [->|Hi0].
      * replace (dest + 4 * 0) with dest by lia.
        replace (src + 4 * 0) with src by lia.
        rewrite (wrap_small src) by apply Hs.
        rewrite (load32_ext m' (store32 m dest (load32 m src))).
        -- rewrite load32_store32_same by exact Hd.
           apply wrap_small, load32_range.
        -- exact Hd.
        -- intros x Hx. apply Hframe. lia.
      * assert (Hs' : wf_ptr (ptr_inc src)).
        { unfold ptr_inc. replace (src + 4) with (src + 4 * 1) by lia.
          apply wf_ptr_wrap_add, Hs. }
        assert (Hshift : forall i', wrap (ptr_inc src + 4 * i') = wrap (src + 4 * (i' + 1))).
        { intros i'. unfold ptr_inc. rewrite wrap_wrap_add. f_equal. lia. }
        replace (dest + 4 * i) with (dest + 4 + 4 * (i - 1)) by lia.
        rewrite Hcopy; [| exact Hs' | | lia].
        -- rewrite Hshift. replace (i - 1 + 1) with i by lia.
           apply load32_store32_other; [exact Hd| |].
           ++ apply wf_ptr_wrap_add, Hs.
           ++ intros E. apply (Hintact i 0); [lia|lia|]. rewrite <- E. lia.
        -- intros i' j' Hj' Hi' E. rewrite Hshift in E.
           apply (Hintact (i' + 1) (j' + 1)); [lia|lia|]. rewrite E. lia.
Qed.

(** *** The primitives on well-formed pointers *)

Lemma memory_clear_runs (m : mem) (dest dest_end : Z) :
  wf_ptr dest -> wf_ptr dest_end ->
  exists m' : mem,
    runs_to (fun k => memory_clear k m dest dest_end) m'
    /\ (forall x, ~ (dest <= x < dest_end) -> m' x = m x)
    /\ (dest_end <= dest -> m' = m)
    /\ (forall i, 0 <= i -> dest + 4 * i < dest_end -> load32 m' (dest + 4 * i) = 0).
Proof.
  intros Hd He. unfold memory_clear.
  destruct (Z_le_gt_dec dest_end dest) as [Hle|Hgt].
  - exists m. repeat split.
    + exists O. intros k _. apply clear_loop_empty. exact Hle.
    + intros i Hi Hlt. lia.
  - pose proof (iterations_exact dest dest_end Hd He ltac:(lia)) as Hn.
    destruct (clear_loop_words (iterations dest dest_end) m dest dest_end Hd He Hn)
      as (m' & Hrun & Hframe & Hzero).
    exists m'. repeat split.
    + exists (iterations dest dest_end). exact Hrun.
    + exact Hframe.
    + lia.
    + intros i Hi Hlt. apply Hzero. lia.
Qed.

Lemma memory_copy_runs (m : mem) (dest src dest_end : Z) :
  wf_ptr dest -> wf_ptr dest_end ->
  exists m' : mem,
    runs_to (fun k => memory_copy k m dest src dest_end) m'
    /\ (forall x, ~ (dest <= x < dest_end) -> m' x = m x)
    /\ (dest_end <= dest -> m' = m)
    /\ (dest = src -> m' = m)
    /\ (dest <> src -> wf_ptr src ->
        source_intact (iterations dest dest_end) dest src ->
        forall i, 0 <= i -> dest + 4 * i < dest_end ->
                  load32 m' (dest + 4 * i) = load32 m (wrap (src + 4 * i))).
Proof.
  intros Hd He. unfold memory_copy.
  destruct (Z.eqb_spec dest src) as [Heq|Hne].
  { exists m. repeat split.
    - exists O. intros k _. reflexivity.
    - intros Hc. contradiction. }
  destruct (Z_le_gt_dec dest_end dest) as [Hle|Hgt].
  - exists m. repeat split.
    + exists O. intros k _. apply copy_loop_empty. exact Hle.
    + intros _ _ _ i Hi Hlt. lia.
  - pose proof (iterations_exact dest dest_end Hd He ltac:(lia)) as Hn.
    destruct (copy_loop_words (iterations dest dest_end) m dest src dest_end Hd He Hn)
      as (m' & Hrun & Hframe & Hcopy).
    exists m'. repeat split.
    + exists (iterations dest dest_end). exact Hrun.
    + exact Hframe.
    + lia.
    + intros Hc. contradiction.
    + intros _ Hs Hint i Hi Hlt. apply Hcopy; [exact Hs|exact Hint|lia].
Qed.

Lemma runs_to_unique {A : Type} (f : nat -> option A) (r1 r2 : A) :
  runs_to f r1 -> runs_to f r2 -> r1 = r2.
Proof.
  intros [n1 H1] [n2 H2].
  specialize (H1 (Nat.max n1 n2) (Nat.le_max_l _ _)).
  specialize (H2 (Nat.max n1 n2) (Nat.le_max_r _ _)).
  congruence.
Qed.

(** A source range that does not wrap and does not start below [dest]
    to reach into the destination is read before it is overwritten. *)
Lemma source_intact_ranges (dest src dest_end : Z) :
  wf_ptr dest -> wf_ptr dest_end -> dest <= dest_end ->
  0 <= src -> src + (dest_end - dest) <= modulus ->
  dest < src \/ src + (dest_end - dest) <= dest ->
  source_intact (iterations dest dest_end) dest src.
Proof.
  intros Hd He Hle Hs Hnw Hsep i j Hj Hi.
  pose proof (iterations_exact dest dest_end Hd He Hle) as Hn.
  rewrite wrap_small by lia. lia.
Qed.

(** ** The claims on [memory_copy] and [memory_clear] *)

(** C3, as stated, fails when the source range starts below [dst] and
    reaches into the destination: [memory_copy(4, 0, 12)] on the words
    [1; 2; 3] at addresses 0, 4, 8 first writes word 0 over word 4 and
    then copies that new word to address 8, which ends up holding [1]
    and not the [2] that address [src + 4 = 4] held before the call. *)
Lemma memory_copy_overlap_counterexample :
  ~ (forall (m m' : mem) (dst src dstEnd : Z),
        wf_ptr dst -> wf_ptr src -> wf_ptr dstEnd ->
        dst <> src -> dst <= dstEnd ->
        runs_to (fun k => memory_copy k m dst src dstEnd) m' ->
        forall i, 0 <= i -> dst + 4 * i < dstEnd ->
                  load32 m' (dst + 4 * i) = load32 m (wrap (src + 4 * i))).
Proof.
  intros H.
  assert (Hrun : exists m', memory_copy 2 overlap_mem 4 0 12 = Some m'
                            /\ load32 m' 8 = 1).
  { eexists. split; [reflexivity|]. vm_compute. reflexivity. }
  destruct Hrun as (m' & Hm' & H8).
  assert (R : runs_to (fun k => memory_copy k overlap_mem 4 0 12) m').
  { apply (memory_copy_runs_from 2). exact Hm'. }
  specialize (H overlap_mem m' 4 0 12).
  assert (W : forall p, wf_ptrb p = true -> wf_ptr p) by (intros p; apply wf_ptrb_spec).
  specialize (H (W 4 eq_refl) (W 0 eq_refl) (W 12 eq_refl) ltac:(lia) ltac:(lia) R
                1 ltac:(lia) ltac:(lia)).
  change (4 + 4 * 1) with 8 in H. rewrite H8 in H.
  vm_compute in H. discriminate H.
Qed.

(** C3, amended: for well-formed [dst], [src], [dstEnd] with
    [dst <> src] and [dst <= dstEnd], [memory_copy] terminates, and when
    no source word is overwritten before it is read (the address of
    source word [i] is not that of a destination word [j < i]), every
    word at [dst + 4*i] in [[dst, dstEnd)] equals the word that
    [src + 4*i] (modulo [2^32]) held before the call. *)
Theorem memory_copy_correct (m : mem) (dst src dstEnd : Z) :
  wf_ptr dst -> wf_ptr src -> wf_ptr dstEnd ->
  dst <> src -> dst <= dstEnd ->
  source_intact (iterations dst dstEnd) dst src ->
  exists m' : mem,
    runs_to (fun k => memory_copy k m dst src dstEnd) m'
    /\ forall i, 0 <= i -> dst + 4 * i < dstEnd ->
                 load32 m' (dst + 4 * i) = load32 m (wrap (src + 4 * i)).
Proof.
  intros Hd Hs He Hne Hle Hint.
  destruct (memory_copy_runs m dst src dstEnd Hd He)
    as (m' & Hrun & _ & _ & _ & Hcopy).
  exists m'. split; [exact Hrun|].
  apply Hcopy; assumption.
Qed.

(** The amended C3 at [memory_copy(0, 4, 8)] on the words [1; 2; 3]:
    the ranges overlap, the source lies ahead of the destination. *)
Lemma memory_copy_correct_witness :
  exists m' : mem,
    runs_to (fun k => memory_copy k overlap_mem 0 4 8) m'
    /\ forall i, 0 <= i -> 0 + 4 * i < 8 ->
                 load32 m' (0 + 4 * i) = load32 overlap_mem (wrap (4 + 4 * i)).
Proof.
  apply (memory_copy_correct overlap_mem 0 4 8).
  - apply wf_ptrb_spec. reflexivity.
  - apply wf_ptrb_spec. reflexivity.
  - apply wf_ptrb_spec. reflexivity.
  - lia.
  - lia.
  - intros i j Hj Hi.
    replace (iterations 0 8) with 2%nat in Hi by reflexivity.
    assert (i = 1) by lia. assert (j = 0) by lia. subst.
    vm_compute. discriminate.
Defined.

(** C4: [memory_copy(dst, dst, dstEnd)] returns at once with the memory
    unchanged, whatever [dstEnd] is; the loop is not entered (no loop
    iteration is needed, even for a non-empty range). *)
Theorem memory_copy_same_noop (fuel : nat) (m : mem) (dst dstEnd : Z) :
  memory_copy fuel m dst dst dstEnd = Some m.
Proof.
  unfold memory_copy. rewrite Z.eqb_refl. reflexivity.
Qed.

(** C5: for well-formed [dst <= dstEnd], [memory_clear] terminates and
    every word of [[dst, dstEnd)] is zero afterwards. *)
Theorem memory_clear_zero (m : mem) (dst dstEnd : Z) :
  wf_ptr dst -> wf_ptr dstEnd -> dst <= dstEnd ->
  exists m' : mem,
    runs_to (fun k => memory_clear k m dst dstEnd) m'
    /\ forall i, 0 <= i -> dst + 4 * i < dstEnd -> load32 m' (dst + 4 * i) = 0.
Proof.
  intros Hd He _.
  destruct (memory_clear_runs m dst dstEnd Hd He) as (m' & Hrun & _ & _ & Hzero).
  exists m'. split; assumption.
Qed.

Lemma memory_clear_zero_witness :
  exists m' : mem,
    runs_to (fun k => memory_clear k overlap_mem 4 12) m'
    /\ forall i, 0 <= i -> 4 + 4 * i < 12 -> load32 m' (4 + 4 * i) = 0.
Proof.
  apply (memory_clear_zero overlap_mem 4 12).
  - apply wf_ptrb_spec. reflexivity.
  - apply wf_ptrb_spec. reflexivity.
  - lia.
Defined.

(** C6: with [dst == dstEnd] both primitives return without a loop
    iteration and without a write: the memory is unchanged. *)
Theorem empty_range_noop (fuel : nat) (m : mem) (dst src : Z) :
  dst <> src ->
  memory_copy fuel m dst src dst = Some m
  /\ memory_clear fuel m dst dst = Some m.
Proof.
  intros Hne. split.
  - unfold memory_copy. destruct (Z.eqb_spec dst src); [contradiction|].
    apply copy_loop_empty. lia.
  - apply clear_loop_empty. lia.
Qed.

Lemma empty_range_noop_witness :
  memory_copy 0 overlap_mem 8 0 8 = Some overlap_mem
  /\ memory_clear 0 overlap_mem 8 8 = Some overlap_mem.
Proof.
  apply (empty_range_noop 0 overlap_mem 8 0). lia.
Defined.

(** C10: for all [uint32_t *] values [dst], [src], [dstEnd], in any
    order, [memory_copy] and [memory_clear] terminate; every byte, hence
    every word, outside [[dst, dstEnd)] is as before; an inverted range
    writes nothing at all. *)
Theorem primitives_frame (m : mem) (dst src dstEnd : Z) :
  wf_ptr dst -> wf_ptr dstEnd ->
  exists mc mz : mem,
    runs_to (fun k => memory_copy k m dst src dstEnd) mc
    /\ runs_to (fun k => memory_clear k m dst dstEnd) mz
    /\ (forall x, ~ (dst <= x < dstEnd) -> mc x = m x /\ mz x = m x)
    /\ (forall a, wf_ptr a -> ~ (dst <= a < dstEnd) ->
                  load32 mc a = load32 m a /\ load32 mz a = load32 m a)
    /\ (dstEnd < dst -> mc = m /\ mz = m).
Proof.
  intros Hd He.
  destruct (memory_copy_runs m dst src dstEnd Hd He) as (mc & Hrc & Hfc & Hec & _).
  destruct (memory_clear_runs m dst dstEnd Hd He) as (mz & Hrz & Hfz & Hez & _).
  exists mc, mz. repeat split; auto.
  - apply load32_ext; [assumption|]. intros x Hx. apply Hfc.
    destruct (Z.eq_dec dst a) as [->|Hne]; [lia|].
    destruct (Z_lt_ge_dec a dst) as [Hlt|Hge].
    + destruct (wf_ptr_apart a dst H Hd ltac:(lia)); lia.
    + assert (dstEnd <= a) by lia.
      destruct (Z.eq_dec dstEnd a) as [->|Hne']; [lia|].
      destruct (wf_ptr_apart a dstEnd H He ltac:(lia)); lia.
  - apply load32_ext; [assumption|]. intros x Hx. apply Hfz.
    destruct (Z.eq_dec dst a) as [->|Hne]; [lia|].
    destruct (Z_lt_ge_dec a dst) as [Hlt|Hge].
    + destruct (wf_ptr_apart a dst H Hd ltac:(lia)); lia.
    + assert (dstEnd <= a) by lia.
      destruct (Z.eq_dec dstEnd a) as [->|Hne']; [lia|].
      destruct (wf_ptr_apart a dstEnd H He ltac:(lia)); lia.
  - apply Hec. lia.
  - apply Hez. lia.
Qed.

(** C10 on an inverted range: [dst = 8], [dstEnd = 4]. *)
Lemma primitives_frame_witness :
  exists mc mz : mem,
    runs_to (fun k => memory_copy k overlap_mem 8 0 4) mc
    /\ runs_to (fun k => memory_clear k overlap_mem 8 4) mz
    /\ (forall x, ~ (8 <= x < 4) -> mc x = overlap_mem x /\ mz x = overlap_mem x)
    /\ (forall a, wf_ptr a -> ~ (8 <= a < 4) ->
                  load32 mc a = load32 overlap_mem a
                  /\ load32 mz a = load32 overlap_mem a)
    /\ (4 < 8 -> mc = overlap_mem /\ mz = overlap_mem).
Proof.
  apply (primitives_frame overlap_mem 8 0 4).
  - apply wf_ptrb_spec. reflexivity.
  - apply wf_ptrb_spec. reflexivity.
Defined.

(** ** The startup routine *)

(** [startup_init] stage by stage: the memory [m2] once the device
    registers are programmed, [m3] and [m4] after the two copies, [m5]
    after the clear; then the final state with its effects in order. *)
Lemma startup_runs (L : symbols) (s : machine) :
  wf_ptr (_stext L) -> wf_ptr (_etext L) ->
  wf_ptr (_sdata L) -> wf_ptr (_edata L) ->
  wf_ptr (_sbss L) -> wf_ptr (_ebss L) ->
  exists m2 m3 m4 m5 : mem,
    let m1 := store32 (store32 (store32 (m_mem s)
                (0x400AC000 + 0x44) (_flexram_bank_config L))
                (0x400AC000 + 0x40) 0x00000007)
                (0x400AC000 + 0x38) 0x00AA0000 in
    let cpacr := load32 m1 0xE000ED88 in
    m2 = store32 m1 0xE000ED88 (Z.lor cpacr (Z.shiftl 0xFF 20))
    /\ runs_to (fun k => memory_copy k m2 (_stext L) (_stextload L) (_etext L)) m3
    /\ runs_to (fun k => memory_copy k m3 (_sdata L) (_sdataload L) (_edata L)) m4
    /\ runs_to (fun k => memory_clear k m4 (_sbss L) (_ebss L)) m5
    /\ runs_to (fun k => startup_init k L s)
         (tt, mkMachine
                (store32 (store32 m5 (irq_table L + 4 * 0) (_estack L))
                         0xE000ED08 (irq_table L))
                (_estack L) (m_lr s) (m_pc s)
                (m_trace s ++
                 [ EvMmioWrite (0x400AC000 + 0x44) (_flexram_bank_config L);
                   EvMmioWrite (0x400AC000 + 0x40) 0x00000007;
                   EvMmioWrite (0x400AC000 + 0x38) 0x00AA0000;
                   EvMmioRead 0xE000ED88 cpacr;
                   EvMmioWrite 0xE000ED88 (Z.lor cpacr (Z.shiftl 0xFF 20));
                   EvIsb;
                   EvDsb;
                   EvMovSp (_estack L);
                   EvCall Fmemory_copy [_stext L; _stextload L; _etext L];
                   EvReturn Fmemory_copy;
                   EvCall Fmemory_copy [_sdata L; _sdataload L; _edata L];
                   EvReturn Fmemory_copy;
                   EvCall Fmemory_clear [_sbss L; _ebss L];
                   EvReturn Fmemory_clear;
                   EvStore (irq_table L + 4 * 0) (_estack L);
                   EvMmioWrite 0xE000ED08 (irq_table L) ])).
Proof.
  intros Hst Het Hsd Hed Hsb Heb.
  destruct s as [m0 sp0 lr0 pc0 tr0]. cbn [m_mem m_sp m_lr m_pc m_trace].
  eexists.
  destruct (memory_copy_runs
              (store32 (store32 (store32 (store32 m0
                (0x400AC000 + 0x44) (_flexram_bank_config L))
                (0x400AC000 + 0x40) 0x00000007)
                (0x400AC000 + 0x38) 0x00AA0000)
                0xE000ED88
                (Z.lor (load32 (store32 (store32 (store32 m0
                   (0x400AC000 + 0x44) (_flexram_bank_config L))
                   (0x400AC000 + 0x40) 0x00000007)
                   (0x400AC000 + 0x38) 0x00AA0000) 0xE000ED88) (Z.shiftl 0xFF 20)))
              (_stext L) (_stextload L) (_etext L) Hst Het)
    as (m3 & [n3 H3] & _).
  destruct (memory_copy_runs m3 (_sdata L) (_sdataload L) (_edata L) Hsd Hed)
    as (m4 & [n4 H4] & _).
  destruct (memory_clear_runs m4 (_sbss L) (_ebss L) Hsb Heb)
    as (m5 & [n5 H5] & _).
  exists m3, m4, m5. cbv zeta.
  split; [reflexivity|].
  split; [exists n3; exact H3|].
  split; [exists n4; exact H4|].
  split; [exists n5; exact H5|].
  exists (Nat.max n3 (Nat.max n4 n5)). intros k Hk.
  cbv [startup_init bind mmio32_write mmio32_read asm_isb asm_dsb
       asm_mov_sp call_memory_copy call_memory_clear store_word log with_mem
       m_mem m_sp m_lr m_pc m_trace].
  rewrite H3 by lia. rewrite H4 by lia. rewrite H5 by lia.
  rewrite <- !app_assoc. reflexivity.
Qed.

(** [startup] is [startup_init] followed by the [bl main] instruction. *)
Lemma startup_from_init (L : symbols) (s s1 : machine) :
  runs_to (fun k => startup_init k L s) (tt, s1) ->
  runs_to (fun k => startup k L s)
    (tt, mkMachine (m_mem s1) (m_sp s1) (Z.lor (bl_return L) 1) (main_addr L)
                   (m_trace s1 ++ [EvBl (main_addr L)])).
Proof.
  intros [n Hn]. exists n. intros k Hk.
  unfold startup, bind. rewrite (Hn k Hk). reflexivity.
Qed.

(** C2: [startup] terminates and its side effects are, in this order,
    the three FlexRAM register writes, the read and the write of the
    FPU access register, [isb], [dsb], the move to [sp], the two calls
    of [memory_copy] and the call of [memory_clear] (each returns before
    the next effect), the store to [irq_table[0]], the write of the
    vector-table-base register and the transfer to [main]. *)
Theorem startup_order (L : symbols) (s : machine) :
  wf_ptr (_stext L) -> wf_ptr (_etext L) ->
  wf_ptr (_sdata L) -> wf_ptr (_edata L) ->
  wf_ptr (_sbss L) -> wf_ptr (_ebss L) ->
  exists (s' : machine) (cpacr : Z),
    runs_to (fun k => startup k L s) (tt, s')
    /\ m_trace s' =
       m_trace s ++
       [ EvMmioWrite 0x400AC044 (_flexram_bank_config L);
         EvMmioWrite 0x400AC040 0x00000007;
         EvMmioWrite 0x400AC038 0x00AA0000;
         EvMmioRead 0xE000ED88 cpacr;
         EvMmioWrite 0xE000ED88 (Z.lor cpacr 0x0FF00000);
         EvIsb;
         EvDsb;
         EvMovSp (_estack L);
         EvCall Fmemory_copy [_stext L; _stextload L; _etext L];
         EvReturn Fmemory_copy;
         EvCall Fmemory_copy [_sdata L; _sdataload L; _edata L];
         EvReturn Fmemory_copy;
         EvCall Fmemory_clear [_sbss L; _ebss L];
         EvReturn Fmemory_clear;
         EvStore (irq_table L) (_estack L);
         EvMmioWrite 0xE000ED08 (irq_table L);
         EvBl (main_addr L) ].
Proof.
  intros Hst Het Hsd Hed Hsb Heb.
  destruct (startup_runs L s Hst Het Hsd Hed Hsb Heb)
    as (m2 & m3 & m4 & m5 & _ & _ & _ & _ & Hinit).
  apply startup_from_init in Hinit.
  eexists. eexists. split; [exact Hinit|].
  cbn [m_trace]. rewrite <- app_assoc.
  replace (irq_table L + 4 * 0) with (irq_table L) by lia.
  reflexivity.
Qed.

Lemma wf_ptr_add (p k e : Z) :
  wf_ptr p -> wf_ptr e -> 0 <= k -> p + 4 * k < e -> wf_ptr (p + 4 * k).
Proof.
  intros Hp He Hk Hlt.
  rewrite <- (wrap_small (p + 4 * k)).
  - apply wf_ptr_wrap_add, Hp.
  - destruct Hp as [Hp _], He as [He _]. lia.
Qed.

(** Programming the four device registers leaves every other byte as it was. *)
Lemma regs_frame (m : mem) (v1 v2 v3 v4 x : Z) :
  (forall r, In r [0x400AC044; 0x400AC040; 0x400AC038; 0xE000ED88] ->
             ~ (r <= x < r + 4)) ->
  store32 (store32 (store32 (store32 m (0x400AC000 + 0x44) v1)
                            (0x400AC000 + 0x40) v2)
                   (0x400AC000 + 0x38) v3)
          0xE000ED88 v4 x = m x.
Proof.
  intros H.
  assert (W : forall p, wf_ptrb p = true -> wf_ptr p) by (intros p; apply wf_ptrb_spec).
  rewrite store32_frame; [|apply W; reflexivity|apply H; simpl; tauto].
  rewrite store32_frame; [|apply W; reflexivity|apply H; simpl; tauto].
  rewrite store32_frame; [|apply W; reflexivity|apply H; simpl; tauto].
  rewrite store32_frame; [|apply W; reflexivity|apply H; simpl; tauto].
  reflexivity.
Qed.

(** Patching [irq_table[0]] and the vector-table-base register leaves
    every other byte as it was. *)
Lemma late_frame (m : mem) (t v1 x : Z) :
  wf_ptr t ->
  (forall r, In r [t; 0xE000ED08] -> ~ (r <= x < r + 4)) ->
  store32 (store32 m (t + 4 * 0) v1) 0xE000ED08 t x = m x.
Proof.
  intros Ht H.
  replace (t + 4 * 0) with t by lia.
  rewrite store32_frame; [|apply wf_ptrb_spec; reflexivity|apply H; simpl; tauto].
  rewrite store32_frame; [|exact Ht|apply H; simpl; tauto].
  reflexivity.
Qed.

(** Two memories that agree on the bytes of [n] words from [lo] on hold
    the same words there. *)
Lemma load32_words_frame (m m' : mem) (lo n i : Z) :
  wf_ptr lo -> lo + 4 * n <= modulus -> 0 <= i < n ->
  (forall x, lo <= x < lo + 4 * n -> m' x = m x) ->
  load32 m' (lo + 4 * i) = load32 m (lo + 4 * i).
Proof.
  intros Hlo Hn Hi H. apply load32_ext.
  - rewrite <- (wrap_small (lo + 4 * i)).
    + apply wf_ptr_wrap_add, Hlo.
    + destruct Hlo as [Hlo _]. lia.
  - intros x Hx. apply H. lia.
Qed.

(** C1: on a well-formed layout, whatever the memory holds at reset,
    [startup] terminates; afterwards the code region and the data region
    hold, word for word, the storage images found at reset at the load
    addresses, every word of the bss region is zero, the stack pointer
    is [&_estack] and the vector-table-base register [0xE000ED08] holds
    the address of [irq_table]. *)
Theorem startup_image (L : symbols) (s : machine) :
  wf_layout L ->
  exists s' : machine,
    runs_to (fun k => startup k L s) (tt, s')
    /\ (forall i, 0 <= i -> _stext L + 4 * i < _etext L ->
          load32 (m_mem s') (_stext L + 4 * i)
          = load32 (m_mem s) (_stextload L + 4 * i))
    /\ (forall i, 0 <= i -> _sdata L + 4 * i < _edata L ->
          load32 (m_mem s') (_sdata L + 4 * i)
          = load32 (m_mem s) (_sdataload L + 4 * i))
    /\ (forall i, 0 <= i -> _sbss L + 4 * i < _ebss L ->
          load32 (m_mem s') (_sbss L + 4 * i) = 0)
    /\ m_sp s' = _estack L
    /\ load32 (m_mem s') 0xE000ED08 = irq_table L.
Proof.
  intros [Hst Het Hstl Hsd Hed Hsdl Hsb Heb Hirq Ot Od Ob Ftl Fdl
          Dtlt Ddld Ddlt Dtd Dtb Ddb Rtl Rdl Lt Ld Lb].
  unfold disjoint, outside, load_end in *.
  destruct (startup_runs L s Hst Het Hsd Hed Hsb Heb)
    as (m2 & m3 & m4 & m5 & Hm2 & R3 & R4 & R5 & Hinit).
  cbv zeta in Hm2, Hinit.
  destruct (memory_copy_runs m2 (_stext L) (_stextload L) (_etext L) Hst Het)
    as (m3' & R3' & F3 & _ & _ & C3).
  rewrite <- (runs_to_unique _ _ _ R3 R3') in F3, C3. clear R3' m3'.
  destruct (memory_copy_runs m3 (_sdata L) (_sdataload L) (_edata L) Hsd Hed)
    as (m4' & R4' & F4 & _ & _ & C4).
  rewrite <- (runs_to_unique _ _ _ R4 R4') in F4, C4. clear R4' m4'.
  destruct (memory_clear_runs m4 (_sbss L) (_ebss L) Hsb Heb)
    as (m5' & R5' & F5 & _ & Z5).
  rewrite <- (runs_to_unique _ _ _ R5 R5') in F5, Z5. clear R5' m5'.
  apply startup_from_init in Hinit.
  eexists. split; [exact Hinit|]. cbn [m_mem m_sp].
  pose proof (iterations_exact _ _ Hst Het Ot) as Nt.
  pose proof (iterations_exact _ _ Hsd Hed Od) as Nd.
  pose proof (iterations_exact _ _ Hsb Heb Ob) as Nb.
  set (nt := Z.of_nat (iterations (_stext L) (_etext L))) in *.
  set (nd := Z.of_nat (iterations (_sdata L) (_edata L))) in *.
  set (nb := Z.of_nat (iterations (_sbss L) (_ebss L))) in *.
  assert (Bt : _etext L < modulus) by apply Het.
  assert (Bd : _edata L < modulus) by apply Hed.
  assert (Bb : _ebss L < modulus) by apply Heb.
  assert (Pl : 0 <= _stextload L /\ 0 <= _sdataload L)
    by (split; [apply Hstl|apply Hsdl]).
  repeat split.
  - (* code region *)
    intros i Hi Hlt.
    rewrite (load32_words_frame m5 _ (_stext L) nt i); [|exact Hst|lia|lia|].
    2:{ intros x Hx. apply late_frame; [exact Hirq|].
        intros r Hr. specialize (Lt r Hr). lia. }
    rewrite (load32_words_frame m4 m5 (_stext L) nt i); [|exact Hst|lia|lia|].
    2:{ intros x Hx. apply F5. lia. }
    rewrite (load32_words_frame m3 m4 (_stext L) nt i); [|exact Hst|lia|lia|].
    2:{ intros x Hx. apply F4. lia. }
    rewrite C3; [|lia|exact Hstl| |exact Hi|exact Hlt].
    2:{ apply source_intact_ranges; try assumption; lia. }
    rewrite wrap_small by lia.
    rewrite Hm2.
    apply (load32_words_frame _ _ (_stextload L) nt i); [exact Hstl|lia|lia|].
    intros x Hx. apply regs_frame.
    intros r Hr. specialize (Rtl r Hr). lia.
  - (* data region *)
    intros i Hi Hlt.
    rewrite (load32_words_frame m5 _ (_sdata L) nd i); [|exact Hsd|lia|lia|].
    2:{ intros x Hx. apply late_frame; [exact Hirq|].
        intros r Hr. specialize (Ld r Hr). lia. }
    rewrite (load32_words_frame m4 m5 (_sdata L) nd i); [|exact Hsd|lia|lia|].
    2:{ intros x Hx. apply F5. lia. }
    rewrite C4; [|lia|exact Hsdl| |exact Hi|exact Hlt].
    2:{ apply source_intact_ranges; try assumption; lia. }
    rewrite wrap_small by lia.
    rewrite (load32_words_frame m2 m3 (_sdataload L) nd i); [|exact Hsdl|lia|lia|].
    2:{ intros x Hx. apply F3. lia. }
    rewrite Hm2.
    apply (load32_words_frame _ _ (_sdataload L) nd i); [exact Hsdl|lia|lia|].
    intros x Hx. apply regs_frame.
    intros r Hr. specialize (Rdl r Hr). lia.
  - (* bss region *)
    intros i Hi Hlt.
    rewrite (load32_words_frame m5 _ (_sbss L) nb i); [|exact Hsb|lia|lia|].
    2:{ intros x Hx. apply late_frame; [exact Hirq|].
        intros r Hr. specialize (Lb r Hr). lia. }
    apply Z5; assumption.
  - (* vector-table-base register *)
    rewrite load32_store32_same by (apply wf_ptrb_spec; reflexivity).
    apply wrap_small, Hirq.
Qed.

Lemma startup_image_witness :
  exists s' : machine,
    runs_to (fun k => startup k demo_layout demo_machine) (tt, s')
    /\ (forall i, 0 <= i -> _stext demo_layout + 4 * i < _etext demo_layout ->
          load32 (m_mem s') (_stext demo_layout + 4 * i)
          = load32 (m_mem demo_machine) (_stextload demo_layout + 4 * i))
    /\ (forall i, 0 <= i -> _sdata demo_layout + 4 * i < _edata demo_layout ->
          load32 (m_mem s') (_sdata demo_layout + 4 * i)
          = load32 (m_mem demo_machine) (_sdataload demo_layout + 4 * i))
    /\ (forall i, 0 <= i -> _sbss demo_layout + 4 * i < _ebss demo_layout ->
          load32 (m_mem s') (_sbss demo_layout + 4 * i) = 0)
    /\ m_sp s' = _estack demo_layout
    /\ load32 (m_mem s') 0xE000ED08 = irq_table demo_layout.
Proof.
  apply (startup_image demo_layout demo_machine).
  constructor;
    try demo_wf_ptr;
    try (unfold disjoint, load_end, modulus; cbn; lia);
    demo_outside.
Defined.

Lemma startup_order_witness :
  exists (s' : machine) (cpacr : Z),
    runs_to (fun k => startup k demo_layout demo_machine) (tt, s')
    /\ m_trace s' =
       m_trace demo_machine ++
       [ EvMmioWrite 0x400AC044 (_flexram_bank_config demo_layout);
         EvMmioWrite 0x400AC040 0x00000007;
         EvMmioWrite 0x400AC038 0x00AA0000;
         EvMmioRead 0xE000ED88 cpacr;
         EvMmioWrite 0xE000ED88 (Z.lor cpacr 0x0FF00000);
         EvIsb;
         EvDsb;
         EvMovSp (_estack demo_layout);
         EvCall Fmemory_copy
           [_stext demo_layout; _stextload demo_layout; _etext demo_layout];
         EvReturn Fmemory_copy;
         EvCall Fmemory_copy
           [_sdata demo_layout; _sdataload demo_layout; _edata demo_layout];
         EvReturn Fmemory_copy;
         EvCall Fmemory_clear [_sbss demo_layout; _ebss demo_layout];
         EvReturn Fmemory_clear;
         EvStore (irq_table demo_layout) (_estack demo_layout);
         EvMmioWrite 0xE000ED08 (irq_table demo_layout);
         EvBl (main_addr demo_layout) ].
Proof.
  apply (startup_order demo_layout demo_machine); demo_wf_ptr.
Defined.

(** [startup] on the demo machine, by evaluation: four loop iterations
    in all, two words of code and two of data in place, the bss words
    cleared, [irq_table[0]] and the device registers as [startup] leaves
    them; then the stack pointer, the program counter and the link
    register. *)
Example startup_demo :
  option_map
    (fun r => let s' := snd r in
              (map (load32 (m_mem s'))
                   [0x00000020; 0x00000024; 0x20000000; 0x20000004;
                    0x20000008; 0x2000000C; 0x20001000;
                    0xE000ED08; 0xE000ED88; 0x400AC044; 0x400AC040; 0x400AC038],
               m_sp s', m_pc s', m_lr s'))
    (startup 2 demo_layout demo_machine)
  = Some ([0x11111111; 0x22222222; 0x33333333; 0x44444444;
           0; 0; 0x20010000;
           0x20001000; 0x0FF00000; 0xAAAAAABF; 0x00000007; 0x00AA0000],
          0x20010000, 0x00000021, 0x60001461).
Proof. vm_compute. reflexivity. Qed.

(** C7, as stated, fails: the transfer is the instruction [bl main],
    which records a return address.  On the demo machine the link
    register holds [0xFFFFFFFF] at reset; [startup] runs to a state with
    control at [main] and the link register holding the address that
    follows the [bl], Thumb bit set: [0x60001461]. *)
Lemma startup_bl_counterexample :
  m_lr demo_machine = 0xFFFFFFFF
  /\ Z.lor (bl_return demo_layout) 1 = 0x60001461
  /\ option_map (fun r => (m_pc (snd r), m_lr (snd r)))
                (startup 2 demo_layout demo_machine)
     = Some (main_addr demo_layout, 0x60001461)
  /\ ~ (forall s' : machine,
          startup 2 demo_layout demo_machine = Some (tt, s') ->
          m_lr s' = m_lr demo_machine).
Proof.
  assert (E : option_map (fun r => (m_pc (snd r), m_lr (snd r)))
                         (startup 2 demo_layout demo_machine)
              = Some (main_addr demo_layout, 0x60001461))
    by (vm_compute; reflexivity).
  split; [reflexivity|]. split; [reflexivity|]. split; [exact E|].
  intros H.
  destruct (startup 2 demo_layout demo_machine) as [[[] s']|] eqn:R;
    [|discriminate E].
  specialize (H s' eq_refl).
  cbn [option_map snd] in E. injection E as _ Elr.
  rewrite Elr in H. discriminate H.
Qed.

(** C7, amended: [startup] ends with [bl main], a branch with link.
    When [startup_init] is done in a state [s1], the transfer puts
    control at [main] and the address of the instruction after the [bl]
    (Thumb bit set) in the link register; it pushes nothing: the stack
    pointer and the memory are those of [s1].  [startup] has no return
    of its own: the run ends with control at [main]. *)
Theorem startup_transfer (L : symbols) (s : machine) :
  wf_ptr (_stext L) -> wf_ptr (_etext L) ->
  wf_ptr (_sdata L) -> wf_ptr (_edata L) ->
  wf_ptr (_sbss L) -> wf_ptr (_ebss L) ->
  exists s1 s' : machine,
    runs_to (fun k => startup_init k L s) (tt, s1)
    /\ runs_to (fun k => startup k L s) (tt, s')
    /\ m_pc s' = main_addr L
    /\ m_lr s' = Z.lor (bl_return L) 1
    /\ m_sp s' = m_sp s1
    /\ m_mem s' = m_mem s1
    /\ m_trace s' = m_trace s1 ++ [EvBl (main_addr L)].
Proof.
  intros Hst Het Hsd Hed Hsb Heb.
  destruct (startup_runs L s Hst Het Hsd Hed Hsb Heb)
    as (m2 & m3 & m4 & m5 & _ & _ & _ & _ & Hinit).
  eexists. eexists. split; [exact Hinit|].
  split; [apply startup_from_init; exact Hinit|].
  repeat split.
Qed.

Lemma startup_transfer_witness :
  exists s1 s' : machine,
    runs_to (fun k => startup_init k demo_layout demo_machine) (tt, s1)
    /\ runs_to (fun k => startup k demo_layout demo_machine) (tt, s')
    /\ m_pc s' = main_addr demo_layout
    /\ m_lr s' = Z.lor (bl_return demo_layout) 1
    /\ m_sp s' = m_sp s1
    /\ m_mem s' = m_mem s1
    /\ m_trace s' = m_trace s1 ++ [EvBl (main_addr demo_layout)].
Proof.
  apply (startup_transfer demo_layout demo_machine); demo_wf_ptr.
Defined.

(** ** The boot tables *)

(** C8: [ImageVectorTable] has eight words; word 0 is the header
    [0x402000D1], word 1 the address of [startup], word 4 the address of
    [BootData] and word 5 the address of [ImageVectorTable] itself. *)
Theorem ImageVectorTable_fields (L : symbols) :
  length (ImageVectorTable L) = 8%nat
  /\ nth_error (ImageVectorTable L) 0 = Some 0x402000D1
  /\ nth_error (ImageVectorTable L) 1 = Some (startup_addr L)
  /\ nth_error (ImageVectorTable L) 4 = Some (BootData_addr L)
  /\ nth_error (ImageVectorTable L) 5 = Some (ImageVectorTable_addr L).
Proof. repeat split. Qed.

(** C9: [FlexSPI_NOR_Config] has 128 words, each a [uint32_t], 512
    bytes in all; the word at byte offset [0x00] is the tag
    [0x42464346], the word at [0x1C0] is the page size 256 and the word
    at [0x1C4] the sector size 4096. *)
Theorem FlexSPI_NOR_Config_layout :
  length FlexSPI_NOR_Config = 128%nat
  /\ Forall (fun w => 0 <= w < modulus) FlexSPI_NOR_Config
  /\ sizeof_table FlexSPI_NOR_Config = 512
  /\ word_at_offset FlexSPI_NOR_Config 0x00 = Some 0x42464346
  /\ word_at_offset FlexSPI_NOR_Config 0x1C0 = Some 256
  /\ word_at_offset FlexSPI_NOR_Config 0x1C4 = Some 4096.
Proof.
  split; [reflexivity|]. split; [|repeat split].
  unfold FlexSPI_NOR_Config, modulus. repeat (constructor; [lia|]). constructor.
Qed.

(** * Further properties of the primitives *)

Lemma store32_zero_byte (m : mem) (a x : Z) :
  wf_ptr a -> a <= x < a + 4 -> store32 m a 0 x = 0.
Proof.
  intros Ha Hx. unfold store32.
  replace (wrap a) with (wrap (a + 0)) by (f_equal; lia).
  rewrite !(wf_ptr_offset a) by (auto; lia).
  repeat match goal with
         | |- context [x =? ?y] => destruct (Z.eqb_spec x y); [reflexivity|]
         end.
  lia.
Qed.

(** The bytes of an aligned word lie on one side of an aligned bound. *)
Lemma word_outside_bytes (a lo hi x : Z) :
  wf_ptr a -> wf_ptr lo -> wf_ptr hi ->
  ~ (lo <= a < hi) -> a <= x < a + 4 -> ~ (lo <= x < hi).
Proof.
  intros Ha Hlo Hhi Hout Hx.
  destruct (Z.eq_dec a lo) as [->|Hne1]; [lia|].
  destruct (Z.eq_dec a hi) as [->|Hne2]; [lia|].
  destruct (wf_ptr_apart a lo Ha Hlo Hne1), (wf_ptr_apart a hi Ha Hhi Hne2); lia.
Qed.

(** [memory_clear] byte by byte. *)
Lemma clear_loop_bytes (n : nat) :
  forall (m : mem) (dest dest_end : Z),
    wf_ptr dest -> wf_ptr dest_end -> dest_end = dest + 4 * Z.of_nat n ->
    exists m' : mem,
      (forall k, (n <= k)%nat -> clear_loop k m dest dest_end = Some m')
      /\ (forall x, dest <= x < dest_end -> m' x = 0)
      /\ (forall x, ~ (dest <= x < dest_end) -> m' x = m x).
Proof.
  induction n as [|n IH]; intros m dest dest_end Hd He Hn.
  - exists m. split; [|split].
    + intros k _. apply clear_loop_empty. lia.
    + intros x Hx. lia.
    + reflexivity.
  - assert (Hlt : dest < dest_end) by lia.
    destruct (wf_ptr_step dest dest_end Hd He Hlt) as (Hinc & Hd' & Hle).
    destruct (IH (store32 m dest 0) (dest + 4) dest_end Hd' He ltac:(lia))
      as (m' & Hrun & Hzero & Hframe).
    exists m'. split; [|split].
    + intros [|k] Hk; [lia|]. simpl.
      destruct (Z.ltb_spec dest dest_end); [|lia].
      rewrite Hinc. apply Hrun. lia.
    + intros x Hx. destruct (Z_lt_ge_dec x (dest + 4)) as [Hlo|Hhi].
      * rewrite Hframe by lia. apply store32_zero_byte; [exact Hd|lia].
      * apply Hzero. lia.
    + intros x Hx. rewrite Hframe by lia. apply store32_frame; [exact Hd|lia].
Qed.

Lemma memory_clear_bytes (m : mem) (dest dest_end : Z) :
  wf_ptr dest -> wf_ptr dest_end ->
  exists m' : mem,
    runs_to (fun k => memory_clear k m dest dest_end) m'
    /\ (forall x, dest <= x < dest_end -> m' x = 0)
    /\ (forall x, ~ (dest <= x < dest_end) -> m' x = m x).
Proof.
  intros Hd He. unfold memory_clear.
  destruct (Z_le_gt_dec dest_end dest) as [Hle|Hgt].
  - exists m. split; [|split].
    + exists O. intros k _. apply clear_loop_empty. exact Hle.
    + intros x Hx. lia.
    + reflexivity.
  - pose proof (iterations_exact dest dest_end Hd He ltac:(lia)) as Hn.
    destruct (clear_loop_bytes (iterations dest dest_end) m dest dest_end Hd He Hn)
      as (m' & Hrun & Hzero & Hframe).
    exists m'. split; [|split]; [|exact Hzero|exact Hframe].
    exists (iterations dest dest_end). exact Hrun.
Qed.

(** X1: clearing a range that is already cleared changes no byte. *)
Theorem memory_clear_idempotent (m : mem) (dst dstEnd : Z) :
  wf_ptr dst -> wf_ptr dstEnd ->
  exists m1 m2 : mem,
    runs_to (fun k => memory_clear k m dst dstEnd) m1
    /\ runs_to (fun k => memory_clear k m1 dst dstEnd) m2
    /\ forall x, m2 x = m1 x.
Proof.
  intros Hd He.
  destruct (memory_clear_bytes m dst dstEnd Hd He) as (m1 & R1 & Z1 & _).
  destruct (memory_clear_bytes m1 dst dstEnd Hd He) as (m2 & R2 & Z2 & F2).
  exists m1, m2. split; [exact R1|]. split; [exact R2|].
  intros x.
  destruct (Z_le_gt_dec dst x) as [Hlo|Hlo];
    [destruct (Z_lt_ge_dec x dstEnd) as [Hhi|Hhi]|].
  - rewrite Z1, Z2 by lia. reflexivity.
  - apply F2. lia.
  - apply F2. lia.
Qed.

Lemma memory_clear_idempotent_witness :
  exists m1 m2 : mem,
    runs_to (fun k => memory_clear k overlap_mem 0 8) m1
    /\ runs_to (fun k => memory_clear k m1 0 8) m2
    /\ forall x, m2 x = m1 x.
Proof.
  apply (memory_clear_idempotent overlap_mem 0 8); demo_wf_ptr.
Defined.

(** *** Copying or clearing in two pieces *)

Lemma copy_loop_split (n : nat) :
  forall (m m1 m2 : mem) (dest src mid dest_end : Z) (k1 k2 : nat),
    wf_ptr dest -> wf_ptr mid -> wf_ptr dest_end -> 0 <= src < modulus ->
    mid = dest + 4 * Z.of_nat n -> mid <= dest_end ->
    copy_loop k1 m dest src mid = Some m1 ->
    copy_loop k2 m1 mid (wrap (src + 4 * Z.of_nat n)) dest_end = Some m2 ->
    copy_loop (k1 + k2) m dest src dest_end = Some m2.
Proof.
  induction n as [|n IH]; intros m m1 m2 dest src mid dest_end k1 k2
                                 Hd Hm He Hs Hn Hle H1 H2.
  - rewrite copy_loop_empty in H1 by lia. injection H1 as <-.
    replace (src + 4 * Z.of_nat 0) with src in H2 by lia.
    rewrite wrap_small in H2 by exact Hs.
    replace mid with dest in H2 by lia.
    apply (copy_loop_mono k2); [lia|exact H2].
  - assert (Hlt : dest < mid) by lia.
    destruct (wf_ptr_step dest mid Hd Hm Hlt) as (Hinc & Hd' & _).
    destruct k1 as [|k1]; simpl in H1;
      destruct (Z.ltb_spec dest mid); try lia; [discriminate H1|].
    simpl. destruct (Z.ltb_spec dest dest_end); [|lia].
    rewrite Hinc in *.
    apply (IH _ m1 m2 _ _ mid); try assumption.
    + apply wrap_range.
    + lia.
    + unfold ptr_inc. rewrite wrap_wrap_add.
      replace (src + 4 + 4 * Z.of_nat n) with (src + 4 * Z.of_nat (S n)) by lia.
      exact H2.
Qed.

Lemma clear_loop_split (n : nat) :
  forall (m m1 m2 : mem) (dest mid dest_end : Z) (k1 k2 : nat),
    wf_ptr dest -> wf_ptr mid -> wf_ptr dest_end ->
    mid = dest + 4 * Z.of_nat n -> mid <= dest_end ->
    clear_loop k1 m dest mid = Some m1 ->
    clear_loop k2 m1 mid dest_end = Some m2 ->
    clear_loop (k1 + k2) m dest dest_end = Some m2.
Proof.
  induction n as [|n IH]; intros m m1 m2 dest mid dest_end k1 k2
                                 Hd Hm He Hn Hle H1 H2.
  - rewrite clear_loop_empty in H1 by lia. injection H1 as <-.
    replace mid with dest in H2 by lia.
    apply (clear_loop_mono k2); [lia|exact H2].
  - assert (Hlt : dest < mid) by lia.
    destruct (wf_ptr_step dest mid Hd Hm Hlt) as (Hinc & Hd' & _).
    destruct k1 as [|k1]; simpl in H1;
      destruct (Z.ltb_spec dest mid); try lia; [discriminate H1|].
    simpl. destruct (Z.ltb_spec dest dest_end); [|lia].
    rewrite Hinc in *.
    apply (IH _ m1 m2 _ mid); try assumption. lia.
Qed.

(** X2: a copy may be done in two pieces: copying [[dst, mid)] from
    [src] and then [[mid, dstEnd)] from the source advanced by as much
    gives the memory that the single copy of [[dst, dstEnd)] gives. *)
Theorem memory_copy_split (m : mem) (dst src mid dstEnd : Z) :
  wf_ptr dst -> wf_ptr src -> wf_ptr mid -> wf_ptr dstEnd ->
  dst <= mid -> mid <= dstEnd ->
  exists m1 m2 : mem,
    runs_to (fun k => memory_copy k m dst src mid) m1
    /\ runs_to (fun k => memory_copy k m1 mid (wrap (src + (mid - dst))) dstEnd) m2
    /\ runs_to (fun k => memory_copy k m dst src dstEnd) m2.
Proof.
  intros Hd Hs Hm He Hle1 Hle2.
  destruct (memory_copy_runs m dst src mid Hd Hm) as (m1 & R1 & _).
  destruct (memory_copy_runs m1 mid (wrap (src + (mid - dst))) dstEnd Hm He)
    as (m2 & R2 & _).
  exists m1, m2. split; [exact R1|]. split; [exact R2|].
  destruct R1 as [k1 R1], R2 as [k2 R2].
  specialize (R1 k1 (Nat.le_refl _)). specialize (R2 k2 (Nat.le_refl _)).
  apply (memory_copy_runs_from (k1 + k2)).
  unfold memory_copy in *.
  destruct (Z.eqb_spec dst src) as [Heq|Hne].
  - subst src. injection R1 as <-.
    replace (dst + (mid - dst)) with mid in R2 by lia.
    rewrite wrap_small, Z.eqb_refl in R2 by apply Hm.
    exact R2.
  - pose proof (iterations_exact dst mid Hd Hm Hle1) as Hn.
    destruct (Z.eqb_spec mid (wrap (src + (mid - dst)))) as [Heq|_].
    { exfalso. destruct Hd as [Hd _], Hs as [Hs _], Hm as [Hm _].
      unfold wrap, modulus in *.
      revert Heq. Z.to_euclidean_division_equations. lia. }
    apply (copy_loop_split (iterations dst mid) m m1 m2 dst src mid dstEnd);
      try assumption.
    + apply Hs.
    + replace (src + 4 * Z.of_nat (iterations dst mid)) with (src + (mid - dst)) by lia.
      exact R2.
Qed.

Lemma memory_copy_split_witness :
  exists m1 m2 : mem,
    runs_to (fun k => memory_copy k overlap_mem 12 0 16) m1
    /\ runs_to (fun k => memory_copy k m1 16 (wrap (0 + (16 - 12))) 24) m2
    /\ runs_to (fun k => memory_copy k overlap_mem 12 0 24) m2.
Proof.
  apply (memory_copy_split overlap_mem 12 0 16 24); try demo_wf_ptr; lia.
Defined.

(** X3: likewise, clearing [[dst, mid)] and then [[mid, dstEnd)] gives
    the memory that clearing [[dst, dstEnd)] gives. *)
Theorem memory_clear_split (m : mem) (dst mid dstEnd : Z) :
  wf_ptr dst -> wf_ptr mid -> wf_ptr dstEnd ->
  dst <= mid -> mid <= dstEnd ->
  exists m1 m2 : mem,
    runs_to (fun k => memory_clear k m dst mid) m1
    /\ runs_to (fun k => memory_clear k m1 mid dstEnd) m2
    /\ runs_to (fun k => memory_clear k m dst dstEnd) m2.
Proof.
  intros Hd Hm He Hle1 Hle2.
  destruct (memory_clear_runs m dst mid Hd Hm) as (m1 & R1 & _).
  destruct (memory_clear_runs m1 mid dstEnd Hm He) as (m2 & R2 & _).
  exists m1, m2. split; [exact R1|]. split; [exact R2|].
  destruct R1 as [k1 R1], R2 as [k2 R2].
  specialize (R1 k1 (Nat.le_refl _)). specialize (R2 k2 (Nat.le_refl _)).
  apply (memory_clear_runs_from (k1 + k2)).
  unfold memory_clear in *.
  apply (clear_loop_split (iterations dst mid) m m1 m2 dst mid dstEnd);
    try assumption.
  apply iterations_exact; assumption.
Qed.

Lemma memory_clear_split_witness :
  exists m1 m2 : mem,
    runs_to (fun k => memory_clear k overlap_mem 0 4) m1
    /\ runs_to (fun k => memory_clear k m1 4 12) m2
    /\ runs_to (fun k => memory_clear k overlap_mem 0 12) m2.
Proof.
  apply (memory_clear_split overlap_mem 0 4 12); try demo_wf_ptr; lia.
Defined.

(** *** The number of iterations *)

Lemma copy_loop_short (n : nat) :
  forall (m : mem) (dest src dest_end : Z) (k : nat),
    wf_ptr dest -> wf_ptr dest_end -> dest_end = dest + 4 * Z.of_nat n ->
    (k < n)%nat -> copy_loop k m dest src dest_end = None.
Proof.
  induction n as [|n IH]; intros m dest src dest_end k Hd He Hn Hk; [lia|].
  assert (Hlt : dest < dest_end) by lia.
  destruct (wf_ptr_step dest dest_end Hd He Hlt) as (Hinc & Hd' & _).
  destruct k as [|k]; simpl; destruct (Z.ltb_spec dest dest_end); try lia.
  - reflexivity.
  - rewrite Hinc. apply IH; try assumption; lia.
Qed.

Lemma clear_loop_short (n : nat) :
  forall (m : mem) (dest dest_end : Z) (k : nat),
    wf_ptr dest -> wf_ptr dest_end -> dest_end = dest + 4 * Z.of_nat n ->
    (k < n)%nat -> clear_loop k m dest dest_end = None.
Proof.
  induction n as [|n IH]; intros m dest dest_end k Hd He Hn Hk; [lia|].
  assert (Hlt : dest < dest_end) by lia.
  destruct (wf_ptr_step dest dest_end Hd He Hlt) as (Hinc & Hd' & _).
  destruct k as [|k]; simpl; destruct (Z.ltb_spec dest dest_end); try lia.
  - reflexivity.
  - rewrite Hinc. apply IH; try assumption; lia.
Qed.

(** X4: on a range [dst <= dstEnd] both loops run exactly
    [(dstEnd - dst) / 4] times: a bound of [k] iterations is reached
    with the guard still true exactly when [k] is smaller than that. *)
Theorem primitives_iterations (m : mem) (dst src dstEnd : Z) (k : nat) :
  wf_ptr dst -> wf_ptr dstEnd -> dst <> src -> dst <= dstEnd ->
  (memory_copy k m dst src dstEnd = None <-> (k < iterations dst dstEnd)%nat)
  /\ (memory_clear k m dst dstEnd = None <-> (k < iterations dst dstEnd)%nat).
Proof.
  intros Hd He Hne Hle.
  pose proof (iterations_exact dst dstEnd Hd He Hle) as Hn.
  unfold memory_copy, memory_clear.
  destruct (Z.eqb_spec dst src) as [|_]; [contradiction|].
  split; split.
  - intros H. destruct (Nat.lt_ge_cases k (iterations dst dstEnd)) as [|Hge]; [assumption|].
    destruct (copy_loop_words _ m dst src dstEnd Hd He Hn) as (m' & Hrun & _).
    rewrite (Hrun k Hge) in H. discriminate H.
  - intros H. apply (copy_loop_short (iterations dst dstEnd)); assumption.
  - intros H. destruct (Nat.lt_ge_cases k (iterations dst dstEnd)) as [|Hge]; [assumption|].
    destruct (clear_loop_words _ m dst dstEnd Hd He Hn) as (m' & Hrun & _).
    rewrite (Hrun k Hge) in H. discriminate H.
  - intros H. apply (clear_loop_short (iterations dst dstEnd)); assumption.
Qed.

Lemma primitives_iterations_witness :
  (memory_copy 1 overlap_mem 4 0 12 = None <-> (1 < iterations 4 12)%nat)
  /\ (memory_clear 1 overlap_mem 4 12 = None <-> (1 < iterations 4 12)%nat).
Proof.
  apply (primitives_iterations overlap_mem 4 0 12 1); try demo_wf_ptr; lia.
Defined.

(** *** A source that starts below the destination *)

Lemma mod_succ_cases (i k : Z) :
  0 <= i -> 0 < k ->
  (i mod k + 1 < k /\ (i + 1) mod k = i mod k + 1)
  \/ (i mod k + 1 = k /\ (i + 1) mod k = 0).
Proof.
  intros Hi Hk.
  pose proof (Z.mod_pos_bound i k Hk) as Hr.
  pose proof (Z.div_mod i k ltac:(lia)) as Hdm.
  destruct (Z_lt_ge_dec (i mod k + 1) k) as [Hlt|Hge].
  - left. split; [exact Hlt|].
    symmetry. apply (Z.mod_unique_pos _ _ (i / k)); lia.
  - right. split; [lia|].
    symmetry. apply (Z.mod_unique_pos _ _ (i / k + 1)); lia.
Qed.

Lemma copy_loop_periodic (n : nat) :
  forall (m : mem) (dest src dest_end k : Z),
    wf_ptr dest -> wf_ptr dest_end -> wf_ptr src ->
    dest_end = dest + 4 * Z.of_nat n ->
    0 < k -> dest = src + 4 * k ->
    exists m' : mem,
      (forall j, (n <= j)%nat -> copy_loop j m dest src dest_end = Some m')
      /\ (forall x, ~ (dest <= x < dest_end) -> m' x = m x)
      /\ (forall i, 0 <= i < Z.of_nat n ->
                    load32 m' (dest + 4 * i) = load32 m (src + 4 * (i mod k))).
Proof.
  induction n as [|n IH]; intros m dest src dest_end k Hd He Hs Hn Hk Hds.
  - exists m. split; [|split].
    + intros j _. apply copy_loop_empty. lia.
    + reflexivity.
    + intros i Hi. lia.
  - assert (Hlt : dest < dest_end) by lia.
    destruct (wf_ptr_step dest dest_end Hd He Hlt) as (Hinc & Hd' & Hle).
    assert (Hlts : src < dest) by lia.
    destruct (wf_ptr_step src dest Hs Hd Hlts) as (Hincs & Hs' & _).
    destruct (IH (store32 m dest (load32 m src)) (dest + 4) (src + 4) dest_end k
                 Hd' He Hs' ltac:(lia) Hk ltac:(lia))
      as (m' & Hrun & Hframe & Hper).
    exists m'. split; [|split].
    + intros [|j] Hj; [lia|]. simpl.
      destruct (Z.ltb_spec dest dest_end); [|lia].
      rewrite Hinc, Hincs. apply Hrun. lia.
    + intros x Hx. rewrite Hframe by lia. apply store32_frame; [exact Hd|lia].
    + intros i Hi.
      assert (Hfirst : load32 (store32 m dest (load32 m src)) dest = load32 m src).
      { rewrite load32_store32_same by exact Hd. apply wrap_small, load32_range. }
      destruct (Z.eq_dec i 0) as [->|Hi0].
      * rewrite Z.mod_0_l by lia.
        replace (dest + 4 * 0) with dest by lia.
        replace (src + 4 * 0) with src by lia.
        rewrite (load32_ext m' (store32 m dest (load32 m src)));
          [exact Hfirst|exact Hd|].
        intros x Hx. apply Hframe. lia.
      * replace (dest + 4 * i) with (dest + 4 + 4 * (i - 1)) by lia.
        rewrite Hper by lia.
        destruct (mod_succ_cases (i - 1) k ltac:(lia) Hk) as [[Hr E]|[Hr E]];
          replace (i - 1 + 1) with i in E by lia; rewrite E.
        -- replace (src + 4 + 4 * ((i - 1) mod k))
             with (src + 4 * ((i - 1) mod k + 1)) by lia.
           pose proof (Z.mod_pos_bound (i - 1) k Hk) as Hb.
           apply load32_store32_other; [exact Hd| |lia].
           apply (wf_ptr_add src _ dest); try assumption; lia.
        -- replace (src + 4 + 4 * ((i - 1) mod k)) with dest by lia.
           replace (src + 4 * 0) with src by lia.
           exact Hfirst.
Qed.

(** X5: when the source starts [k >= 1] words below the destination
    ([dst = src + 4*k]), the forward copy fills [[dst, dstEnd)] with the
    first [k] source words repeated: word [i] of the destination ends up
    equal to the word that [src + 4*(i mod k)] held before the call. *)
Theorem memory_copy_periodic (m : mem) (dst src dstEnd k : Z) :
  wf_ptr dst -> wf_ptr src -> wf_ptr dstEnd ->
  0 < k -> dst = src + 4 * k -> dst <= dstEnd ->
  exists m' : mem,
    runs_to (fun j => memory_copy j m dst src dstEnd) m'
    /\ forall i, 0 <= i -> dst + 4 * i < dstEnd ->
                 load32 m' (dst + 4 * i) = load32 m (src + 4 * (i mod k)).
Proof.
  intros Hd Hs He Hk Hds Hle.
  pose proof (iterations_exact dst dstEnd Hd He Hle) as Hn.
  destruct (copy_loop_periodic _ m dst src dstEnd k Hd He Hs Hn Hk Hds)
    as (m' & Hrun & _ & Hper).
  exists m'. split.
  - exists (iterations dst dstEnd). intros j Hj. unfold memory_copy.
    destruct (Z.eqb_spec dst src); [lia|]. apply Hrun, Hj.
  - intros i Hi Hlt. apply Hper. lia.
Qed.

(** With [k = 1] the whole range receives the one word at [src]. *)
Lemma memory_copy_periodic_witness :
  exists m' : mem,
    runs_to (fun j => memory_copy j overlap_mem 4 0 16) m'
    /\ forall i, 0 <= i -> 4 + 4 * i < 16 ->
                 load32 m' (4 + 4 * i) = load32 overlap_mem (0 + 4 * (i mod 1)).
Proof.
  apply (memory_copy_periodic overlap_mem 4 0 16 1); try demo_wf_ptr; lia.
Defined.

(** *** Copying there and back *)

Lemma wf_ptr_aligned (p : Z) : wf_ptr p -> p = 4 * (p / 4).
Proof. intros [_ Ha]. apply Z.div_exact; lia. Qed.

(** X6: between ranges that do not meet, a copy leaves its source as it
    was, and copying the destination back over the source changes no
    word of the memory. *)
Theorem memory_copy_round_trip (m : mem) (dst src dstEnd : Z) :
  wf_ptr dst -> wf_ptr src -> wf_ptr dstEnd ->
  dst <= dstEnd -> src + (dstEnd - dst) < modulus ->
  dstEnd <= src \/ src + (dstEnd - dst) <= dst ->
  exists m1 m2 : mem,
    runs_to (fun k => memory_copy k m dst src dstEnd) m1
    /\ runs_to (fun k => memory_copy k m1 src dst (src + (dstEnd - dst))) m2
    /\ (forall i, 0 <= i -> dst + 4 * i < dstEnd ->
                  load32 m1 (src + 4 * i) = load32 m (src + 4 * i))
    /\ (forall a, wf_ptr a -> load32 m2 a = load32 m1 a).
Proof.
  intros Hd Hs He Hle Hfit Hsep.
  pose proof (iterations_exact dst dstEnd Hd He Hle) as Hn.
  set (n := Z.of_nat (iterations dst dstEnd)) in *.
  assert (Hse : wf_ptr (src + (dstEnd - dst))).
  { replace (src + (dstEnd - dst)) with (src + 4 * n) by lia.
    rewrite <- (wrap_small (src + 4 * n)).
    - apply wf_ptr_wrap_add, Hs.
    - destruct Hs as [Hs _]. lia. }
  assert (Rd : 0 <= dst /\ dstEnd < modulus) by (split; [apply Hd|apply He]).
  assert (Rs : 0 <= src) by apply Hs.
  destruct (memory_copy_runs m dst src dstEnd Hd He)
    as (m1 & R1 & F1 & _ & E1 & C1).
  destruct (memory_copy_runs m1 src dst (src + (dstEnd - dst)) Hs Hse)
    as (m2 & R2 & F2 & _ & E2 & C2).
  exists m1, m2. split; [exact R1|]. split; [exact R2|].
  destruct (Z.eq_dec dst src) as [Heq|Hne].
  { rewrite (E1 Heq) in *. rewrite (E2 (eq_sym Heq)). split; reflexivity. }
  assert (Hsrc : forall i, 0 <= i -> dst + 4 * i < dstEnd ->
                           load32 m1 (src + 4 * i) = load32 m (src + 4 * i)).
  { intros i Hi Hlt.
    apply (load32_words_frame m m1 src n i); [exact Hs|lia|lia|].
    intros x Hx. apply F1. lia. }
  split; [exact Hsrc|].
  intros a Ha.
  destruct (Z_le_gt_dec src a) as [Hlo|Hlo];
    [destruct (Z_lt_ge_dec a (src + (dstEnd - dst))) as [Hhi|Hhi]|].
  - pose proof (wf_ptr_aligned a Ha) as Ea.
    pose proof (wf_ptr_aligned src Hs) as Es.
    set (i := a / 4 - src / 4).
    assert (Hai : a = src + 4 * i) by (unfold i; lia).
    rewrite Hai.
    rewrite C2; [| congruence | exact Hd | | lia | lia].
    2:{ apply source_intact_ranges; try assumption; lia. }
    rewrite wrap_small by lia.
    rewrite C1; [| exact Hne | exact Hs | | lia | lia].
    2:{ apply source_intact_ranges; try assumption; lia. }
    rewrite wrap_small by lia.
    symmetry. apply Hsrc; lia.
  - apply load32_ext; [exact Ha|]. intros x Hx. apply F2.
    apply (word_outside_bytes a); try assumption. lia.
  - apply load32_ext; [exact Ha|]. intros x Hx. apply F2.
    apply (word_outside_bytes a); try assumption. lia.
Qed.

(** Two flash words copied to RAM and back. *)
Lemma memory_copy_round_trip_witness :
  exists m1 m2 : mem,
    runs_to (fun k => memory_copy k overlap_mem 16 0 24) m1
    /\ runs_to (fun k => memory_copy k m1 0 16 (0 + (24 - 16))) m2
    /\ (forall i, 0 <= i -> 16 + 4 * i < 24 ->
                  load32 m1 (0 + 4 * i) = load32 overlap_mem (0 + 4 * i))
    /\ (forall a, wf_ptr a -> load32 m2 a = load32 m1 a).
Proof.
  apply (memory_copy_round_trip overlap_mem 16 0 24);
    try demo_wf_ptr; unfold modulus; lia.
Defined.

(** * Further properties of [startup] *)

(** The memory [startup] hands to [main]: the two late stores on top of
    a memory [m5] that differs from the memory with the four early
    registers programmed only where a copy or the clear has written. *)
Lemma startup_memory (L : symbols) (s : machine) :
  wf_ptr (_stext L) -> wf_ptr (_etext L) ->
  wf_ptr (_sdata L) -> wf_ptr (_edata L) ->
  wf_ptr (_sbss L) -> wf_ptr (_ebss L) ->
  exists (m2 m5 : mem) (s' : machine),
    let m1 := store32 (store32 (store32 (m_mem s)
                (0x400AC000 + 0x44) (_flexram_bank_config L))
                (0x400AC000 + 0x40) 0x00000007)
                (0x400AC000 + 0x38) 0x00AA0000 in
    m2 = store32 m1 0xE000ED88 (Z.lor (load32 m1 0xE000ED88) (Z.shiftl 0xFF 20))
    /\ runs_to (fun k => startup k L s) (tt, s')
    /\ m_mem s' = store32 (store32 m5 (irq_table L + 4 * 0) (_estack L))
                          0xE000ED08 (irq_table L)
    /\ (forall x,
           ~ (_stext L <> _stextload L /\ _stext L <= x < _etext L) ->
           ~ (_sdata L <> _sdataload L /\ _sdata L <= x < _edata L) ->
           ~ (_sbss L <= x < _ebss L) ->
           m5 x = m2 x).
Proof.
  intros Hst Het Hsd Hed Hsb Heb.
  destruct (startup_runs L s Hst Het Hsd Hed Hsb Heb)
    as (m2 & m3 & m4 & m5 & Hm2 & R3 & R4 & R5 & Hinit).
  cbv zeta in Hm2, Hinit.
  destruct (memory_copy_runs m2 (_stext L) (_stextload L) (_etext L) Hst Het)
    as (m3' & R3' & F3 & _ & E3 & _).
  rewrite <- (runs_to_unique _ _ _ R3 R3') in F3, E3. clear R3' m3'.
  destruct (memory_copy_runs m3 (_sdata L) (_sdataload L) (_edata L) Hsd Hed)
    as (m4' & R4' & F4 & _ & E4 & _).
  rewrite <- (runs_to_unique _ _ _ R4 R4') in F4, E4. clear R4' m4'.
  destruct (memory_clear_runs m4 (_sbss L) (_ebss L) Hsb Heb)
    as (m5' & R5' & F5 & _).
  rewrite <- (runs_to_unique _ _ _ R5 R5') in F5. clear R5' m5'.
  apply startup_from_init in Hinit.
  exists m2, m5. eexists. cbv zeta.
  split; [exact Hm2|]. split; [exact Hinit|]. split; [reflexivity|].
  intros x Ht Hd Hb.
  rewrite F5 by exact Hb.
  assert (H4 : m4 x = m3 x).
  { destruct (Z.eq_dec (_sdata L) (_sdataload L)) as [Heq|Hne].
    - rewrite (E4 Heq). reflexivity.
    - apply F4. intros Hin. apply Hd. split; assumption. }
  assert (H3 : m3 x = m2 x).
  { destruct (Z.eq_dec (_stext L) (_stextload L)) as [Heq|Hne].
    - rewrite (E3 Heq). reflexivity.
    - apply F3. intros Hin. apply Ht. split; assumption. }
  congruence.
Qed.

(** X7: [startup] writes nothing outside its footprint: every byte that
    is not in a copied region, in the bss region, in one of the five
    device registers or in [irq_table[0]] is at [main] what it was at
    reset; a region whose load address equals its execution address is
    not written either. *)
Theorem startup_frame (L : symbols) (s : machine) :
  wf_ptr (_stext L) -> wf_ptr (_etext L) ->
  wf_ptr (_sdata L) -> wf_ptr (_edata L) ->
  wf_ptr (_sbss L) -> wf_ptr (_ebss L) ->
  wf_ptr (irq_table L) ->
  exists s' : machine,
    runs_to (fun k => startup k L s) (tt, s')
    /\ forall x, ~ startup_footprint L x -> m_mem s' x = m_mem s x.
Proof.
  intros Hst Het Hsd Hed Hsb Heb Hirq.
  destruct (startup_memory L s Hst Het Hsd Hed Hsb Heb)
    as (m2 & m5 & s' & Hm2 & Hrun & Hmem & F5).
  cbv zeta in Hm2.
  exists s'. split; [exact Hrun|].
  intros x Hx. unfold startup_footprint, in_word in Hx.
  rewrite Hmem.
  rewrite late_frame; [|exact Hirq|].
  2:{ intros r [<-|[<-|[]]]; tauto. }
  rewrite F5 by tauto.
  rewrite Hm2. apply regs_frame.
  intros r [<-|[<-|[<-|[<-|[]]]]]; tauto.
Qed.

Lemma startup_frame_witness :
  exists s' : machine,
    runs_to (fun k => startup k demo_layout demo_machine) (tt, s')
    /\ forall x, ~ startup_footprint demo_layout x ->
                 m_mem s' x = m_mem demo_machine x.
Proof.
  apply (startup_frame demo_layout demo_machine); demo_wf_ptr.
Defined.

Lemma lor_range (a b : Z) :
  0 <= a < modulus -> 0 <= b < modulus -> 0 <= Z.lor a b < modulus.
Proof.
  intros Ha Hb.
  assert (Hnn : 0 <= Z.lor a b) by (apply Z.lor_nonneg; lia).
  split; [exact Hnn|].
  destruct (Z.eq_dec (Z.lor a b) 0) as [->|Hnz]; [reflexivity|].
  assert (Hlog : forall c, 0 <= c < modulus -> Z.log2 c < 32).
  { intros c Hc. destruct (Z.eq_dec c 0) as [->|Hc0]; [reflexivity|].
    apply Z.log2_lt_pow2; [lia|]. change (2 ^ 32) with modulus. lia. }
  change modulus with (2 ^ 32). apply Z.log2_lt_pow2; [lia|].
  rewrite Z.log2_lor by lia. apply Z.max_lub_lt; apply Hlog; assumption.
Qed.

(** The bits of [0xFF << 20]. *)
Lemma cpacr_mask_bits (i : Z) :
  0 <= i -> Z.testbit (Z.shiftl 0xFF 20) i = (20 <=? i) && (i <? 28).
Proof.
  intros Hi. rewrite Z.shiftl_spec by exact Hi.
  change 0xFF with (Z.ones 8).
  destruct (Z.leb_spec 20 i) as [Hlo|Hlo]; simpl.
  - destruct (Z.ltb_spec i 28) as [Hhi|Hhi].
    + apply Z.ones_spec_low. lia.
    + apply Z.ones_spec_high. lia.
  - apply Z.testbit_neg_r. lia.
Qed.

(** A word away from the two late stores keeps its value across them. *)
Lemma late_word (m : mem) (t v r : Z) :
  wf_ptr t -> wf_ptr r -> r <> t -> r <> 0xE000ED08 ->
  load32 (store32 (store32 m (t + 4 * 0) v) 0xE000ED08 t) r = load32 m r.
Proof.
  intros Ht Hr Hne1 Hne2.
  replace (t + 4 * 0) with t by lia.
  rewrite load32_store32_other; [|demo_wf_ptr|exact Hr|congruence].
  apply load32_store32_other; [exact Ht|exact Hr|congruence].
Qed.

(** A word outside the three regions is not written by the copies and
    the clear. *)
Lemma region_word (L : symbols) (m2 m5 : mem) (r : Z) :
  wf_ptr r ->
  outside r (_stext L) (_etext L) ->
  outside r (_sdata L) (_edata L) ->
  outside r (_sbss L) (_ebss L) ->
  (forall x,
      ~ (_stext L <> _stextload L /\ _stext L <= x < _etext L) ->
      ~ (_sdata L <> _sdataload L /\ _sdata L <= x < _edata L) ->
      ~ (_sbss L <= x < _ebss L) ->
      m5 x = m2 x) ->
  load32 m5 r = load32 m2 r.
Proof.
  unfold outside. intros Hr Ot Od Ob F.
  apply load32_ext; [exact Hr|]. intros x Hx. apply F; lia.
Qed.

(** X8: when [main] starts, the three FlexRAM registers hold the bank
    configuration, [7] and [0x00AA0000], and [irq_table[0]] holds the
    top of the stack, provided the registers lie outside the regions
    that are copied and cleared after they are written and [irq_table]
    is none of the registers. *)
Theorem startup_registers (L : symbols) (s : machine) :
  wf_ptr (_stext L) -> wf_ptr (_etext L) ->
  wf_ptr (_sdata L) -> wf_ptr (_edata L) ->
  wf_ptr (_sbss L) -> wf_ptr (_ebss L) ->
  wf_ptr (irq_table L) ->
  (forall r, In r [0x400AC044; 0x400AC040; 0x400AC038] ->
             outside r (_stext L) (_etext L)
             /\ outside r (_sdata L) (_edata L)
             /\ outside r (_sbss L) (_ebss L)) ->
  ~ In (irq_table L) [0x400AC044; 0x400AC040; 0x400AC038; 0xE000ED08] ->
  exists s' : machine,
    runs_to (fun k => startup k L s) (tt, s')
    /\ load32 (m_mem s') 0x400AC044 = wrap (_flexram_bank_config L)
    /\ load32 (m_mem s') 0x400AC040 = 0x00000007
    /\ load32 (m_mem s') 0x400AC038 = 0x00AA0000
    /\ load32 (m_mem s') (irq_table L) = wrap (_estack L).
Proof.
  intros Hst Het Hsd Hed Hsb Heb Hirq Hout Hne.
  destruct (startup_memory L s Hst Het Hsd Hed Hsb Heb)
    as (m2 & m5 & s' & Hm2 & Hrun & Hmem & F5).
  cbv zeta in Hm2.
  assert (W : forall p, wf_ptrb p = true -> wf_ptr p) by (intros p; apply wf_ptrb_spec).
  assert (Hkeep : forall r, In r [0x400AC044; 0x400AC040; 0x400AC038] ->
                            load32 (m_mem s') r = load32 m2 r).
  { intros r Hr. destruct (Hout r Hr) as (Ot & Od & Ob).
    assert (Hwr : wf_ptr r)
      by (destruct Hr as [<-|[<-|[<-|[]]]]; apply W; reflexivity).
    rewrite Hmem, late_word; [|exact Hirq|exact Hwr| |].
    - apply (region_word L); assumption.
    - intros ->. apply Hne. simpl in *. tauto.
    - destruct Hr as [<-|[<-|[<-|[]]]]; discriminate. }
  exists s'. split; [exact Hrun|].
  rewrite !Hkeep by (simpl; tauto). rewrite Hm2.
  split; [|split; [|split]].
  - rewrite !load32_store32_other by (try (apply W; reflexivity); discriminate).
    apply load32_store32_same. apply W. reflexivity.
  - rewrite !load32_store32_other by (try (apply W; reflexivity); discriminate).
    apply (load32_store32_same _ (0x400AC000 + 0x40)). apply W. reflexivity.
  - rewrite !load32_store32_other by (try (apply W; reflexivity); discriminate).
    apply (load32_store32_same _ (0x400AC000 + 0x38)). apply W. reflexivity.
  - rewrite Hmem. replace (irq_table L + 4 * 0) with (irq_table L) by lia.
    rewrite load32_store32_other; [|apply W; reflexivity|exact Hirq|].
    + apply load32_store32_same. exact Hirq.
    + intros E. apply Hne. rewrite <- E. simpl. tauto.
Qed.

Lemma startup_registers_witness :
  exists s' : machine,
    runs_to (fun k => startup k demo_layout demo_machine) (tt, s')
    /\ load32 (m_mem s') 0x400AC044 = wrap (_flexram_bank_config demo_layout)
    /\ load32 (m_mem s') 0x400AC040 = 0x00000007
    /\ load32 (m_mem s') 0x400AC038 = 0x00AA0000
    /\ load32 (m_mem s') (irq_table demo_layout) = wrap (_estack demo_layout).
Proof.
  apply (startup_registers demo_layout demo_machine); try demo_wf_ptr.
  - intros r Hr. cbn in Hr. unfold outside. cbn.
    repeat (destruct Hr as [Hr|Hr]; [subst r; lia|]). contradiction.
  - cbn. intros H. repeat (destruct H as [H|H]; [discriminate H|]). exact H.
Defined.

(** X9: when [main] starts the FPU is enabled: bits 20 to 27 of the
    coprocessor access register [0xE000ED88] are set and every other
    bit is as at reset, provided the register lies outside the regions
    that are copied and cleared and is not [irq_table[0]]. *)
Theorem startup_fpu_enabled (L : symbols) (s : machine) :
  wf_ptr (_stext L) -> wf_ptr (_etext L) ->
  wf_ptr (_sdata L) -> wf_ptr (_edata L) ->
  wf_ptr (_sbss L) -> wf_ptr (_ebss L) ->
  wf_ptr (irq_table L) ->
  outside 0xE000ED88 (_stext L) (_etext L) ->
  outside 0xE000ED88 (_sdata L) (_edata L) ->
  outside 0xE000ED88 (_sbss L) (_ebss L) ->
  irq_table L <> 0xE000ED88 ->
  exists s' : machine,
    runs_to (fun k => startup k L s) (tt, s')
    /\ forall i, 0 <= i ->
         Z.testbit (load32 (m_mem s') 0xE000ED88) i
         = ((20 <=? i) && (i <? 28)) || Z.testbit (load32 (m_mem s) 0xE000ED88) i.
Proof.
  intros Hst Het Hsd Hed Hsb Heb Hirq Ot Od Ob Hne.
  destruct (startup_memory L s Hst Het Hsd Hed Hsb Heb)
    as (m2 & m5 & s' & Hm2 & Hrun & Hmem & F5).
  cbv zeta in Hm2.
  assert (W : forall p, wf_ptrb p = true -> wf_ptr p) by (intros p; apply wf_ptrb_spec).
  exists s'. split; [exact Hrun|].
  intros i Hi.
  rewrite Hmem, late_word; [|exact Hirq|apply W; reflexivity|congruence|discriminate].
  rewrite (region_word L m2 m5) by (try assumption; apply W; reflexivity).
  rewrite Hm2, load32_store32_same by (apply W; reflexivity).
  rewrite !load32_store32_other by (try (apply W; reflexivity); discriminate).
  rewrite wrap_small
    by (apply lor_range; [apply load32_range|unfold modulus; simpl; lia]).
  rewrite Z.lor_spec, cpacr_mask_bits by exact Hi.
  apply orb_comm.
Qed.

Lemma startup_fpu_enabled_witness :
  exists s' : machine,
    runs_to (fun k => startup k demo_layout demo_machine) (tt, s')
    /\ forall i, 0 <= i ->
         Z.testbit (load32 (m_mem s') 0xE000ED88) i
         = ((20 <=? i) && (i <? 28))
           || Z.testbit (load32 (m_mem demo_machine) 0xE000ED88) i.
Proof.
  apply (startup_fpu_enabled demo_layout demo_machine);
    try demo_wf_ptr; unfold outside; cbn; lia.
Defined.

(** X10: the copy is exact whenever the source range does not wrap and
    either lies above [dst] (overlapping or not) or ends at or below
    [dst]: every word of [[dst, dstEnd)] then equals the word the
    source held at the same offset before the call. *)
Theorem memory_copy_forward_safe (m : mem) (dst src dstEnd : Z) :
  wf_ptr dst -> wf_ptr src -> wf_ptr dstEnd ->
  dst <= dstEnd -> src + (dstEnd - dst) <= modulus ->
  dst < src \/ src + (dstEnd - dst) <= dst ->
  exists m' : mem,
    runs_to (fun k => memory_copy k m dst src dstEnd) m'
    /\ forall i, 0 <= i -> dst + 4 * i < dstEnd ->
                 load32 m' (dst + 4 * i) = load32 m (src + 4 * i).
Proof.
  intros Hd Hs He Hle Hfit Hsep.
  destruct (memory_copy_runs m dst src dstEnd Hd He)
    as (m' & Hrun & _ & Hempty & _ & Hcopy).
  exists m'. split; [exact Hrun|].
  intros i Hi Hlt.
  assert (Hne : dst <> src) by lia.
  rewrite Hcopy; try assumption.
  - rewrite wrap_small; [reflexivity|]. destruct Hs as [[Hs _] _]. lia.
  - apply source_intact_ranges; try assumption. apply Hs.
Qed.

(** Three words moved down by one word, the ranges overlapping. *)
Lemma memory_copy_forward_safe_witness :
  exists m' : mem,
    runs_to (fun k => memory_copy k overlap_mem 0 4 12) m'
    /\ forall i, 0 <= i -> 0 + 4 * i < 12 ->
                 load32 m' (0 + 4 * i) = load32 overlap_mem (4 + 4 * i).
Proof.
  apply (memory_copy_forward_safe overlap_mem 0 4 12);
    try demo_wf_ptr; unfold modulus; lia.
Defined.
